(** * Rigging operators of mets_tools: bone parenting and symmetrize

    A shallow embedding of [bone_parenting_ops.py] and [symmetrize.py].
    The host application's scene graph is a record that the operators
    thread through; a Python exception ends a run with the state reached
    so far.  Host functions that the add-on only calls ([flip_name], the
    built-in symmetrize operator, the [utils] helpers) are fields of a
    host interface: the general statements hold for any host, and the
    examples run on one host that is spelled out. *)

From Stdlib Require Import String Ascii List Bool Arith ZArith QArith Lia DecimalString.
Import ListNotations.

Local Open Scope string_scope.
Local Open Scope list_scope.

Infix "+++" := String.append (right associativity, at level 60).

(** The double-quote character, and a name between double quotes. *)
Definition dq : string := String (ascii_of_nat 34) EmptyString.
Definition quoted (name : string) : string := dq +++ name +++ dq.

(** What [flip_name] does to a name that ends in [.L] or [.R]; the
    examples take it for the host's function. *)
Fixpoint flip_suffix (s : string) : string :=
  match s with
  | String "." (String "L" EmptyString) => ".R"
  | String "." (String "R" EmptyString) => ".L"
  | String c s' => String c (flip_suffix s')
  | EmptyString => EmptyString
  end.

(** ** Python strings *)

Module Py.

(** [s.startswith(p)] *)
Fixpoint startswith (p s : string) : bool :=
  match p, s with
  | EmptyString, _ => true
  | String a p', String b s' => if Ascii.eqb a b then startswith p' s' else false
  | String _ _, EmptyString => false
  end.

(** [sub in s] *)
Fixpoint contains (sub s : string) : bool :=
  if startswith sub s then true
  else match s with
       | EmptyString => false
       | String _ s' => contains sub s'
       end.

(** [s.replace(old, new)] for a non-empty [old]: the non-overlapping
    occurrences are replaced from the left; [skip] counts the characters of
    the occurrence just replaced that are still to be dropped. *)
Fixpoint replace_go (old new : string) (skip : nat) (s : string) : string :=
  match s with
  | EmptyString => EmptyString
  | String c s' =>
      match skip with
      | S k => replace_go old new k s'
      | O =>
          if startswith old s
          then new +++ replace_go old new (String.length old - 1) s'
          else String c (replace_go old new 0 s')
      end
  end.

(** With an empty [old] Python puts [new] before every character and at
    the end. *)
Fixpoint intersperse (new s : string) : string :=
  match s with
  | EmptyString => new
  | String c s' => new +++ String c (intersperse new s')
  end.

Definition replace (old new s : string) : string :=
  match old with
  | EmptyString => intersperse new s
  | _ => replace_go old new 0 s
  end.

(** [s.split(sep, maxsplit)] for a non-empty [sep]; [acc] is the piece
    read so far. *)
Fixpoint split_go (sep : string) (maxsplit : option nat) (skip : nat)
    (acc : string) (s : string) : list string :=
  match s with
  | EmptyString => [acc]
  | String c s' =>
      match skip with
      | S k => split_go sep maxsplit k acc s'
      | O =>
          match maxsplit with
          | Some O => [acc +++ s]
          | _ =>
              if startswith sep s
              then acc :: split_go sep (option_map Nat.pred maxsplit)
                            (String.length sep - 1) EmptyString s'
              else split_go sep maxsplit 0 (acc +++ String c EmptyString) s'
          end
      end
  end.

Definition split (sep s : string) : list string :=
  split_go sep None 0 EmptyString s.

Definition split1 (sep s : string) : list string :=
  split_go sep (Some 1%nat) 0 EmptyString s.

(** [str(n)] *)
Definition str (n : nat) : string := NilEmpty.string_of_uint (Nat.to_uint n).

(** [int(c)] for a one-character string *)
Definition int_of_char (c : ascii) : option nat :=
  let n := nat_of_ascii c in
  if (48 <=? n)%nat && (n <=? 57)%nat then Some (n - 48)%nat else None.

(** [x in l] on a list of names *)
Definition mem (x : string) (l : list string) : bool :=
  existsb (String.eqb x) l.

(** Exceptions the modelled code can raise. *)
Inductive exn : Type :=
| KeyError (key : string)
| IndexError
| ValueError
| RuntimeError
| ReferenceError
| AttributeError (what : string).

(** How a call ends. *)
Inductive outcome (A : Type) : Type :=
| Returned (a : A)
| Raised (e : exn).
Arguments Returned {A} a.
Arguments Raised {A} e.

(** Statements run on a state [S]; the state survives an exception. *)
Definition M (S A : Type) : Type := S -> S * outcome A.

Definition ret {S A} (a : A) : M S A := fun s => (s, Returned a).
Definition raise {S A} (e : exn) : M S A := fun s => (s, Raised e).
Definition bind {S A B} (m : M S A) (k : A -> M S B) : M S B :=
  fun s => match m s with
           | (s', Returned a) => k a s'
           | (s', Raised e) => (s', Raised e)
           end.
Definition get {S} : M S S := fun s => (s, Returned s).
Definition modify {S} (f : S -> S) : M S unit := fun s => (f s, Returned tt).

(** [for x in xs: body x], over the elements [xs] held when the loop starts. *)
Fixpoint for_each {S A} (xs : list A) (body : A -> M S unit) : M S unit :=
  match xs with
  | [] => ret tt
  | x :: xs' => bind (body x) (fun _ => for_each xs' body)
  end.

End Py.

Declare Scope py_scope.
Delimit Scope py_scope with py.
Notation "x <- m ;; k" := (Py.bind m (fun x => k))
  (at level 61, m at next level, right associativity) : py_scope.
Notation "m ;;; k" := (Py.bind m (fun _ => k))
  (at level 61, right associativity) : py_scope.

Example replace_all_occurrences :
  Py.replace "left" "right" "a.left.b.left" = "a.right.b.right".
Proof. reflexivity. Qed.

Example replace_is_not_overlapping : Py.replace "aa" "b" "aaa" = "ba".
Proof. reflexivity. Qed.

Example split_on_marker :
  Py.split ("pose.bones[" +++ dq) ("pose.bones[" +++ quoted "arm.L" +++ "].location")
  = [EmptyString; "arm.L" +++ dq +++ "].location"].
Proof. reflexivity. Qed.

Example split_once :
  Py.split1 "]" "pose.bones[x].constraints[y].influence"
  = ["pose.bones[x"; ".constraints[y].influence"].
Proof. reflexivity. Qed.

(** ** bone_parenting_ops.py *)

Module BoneParentingOps.

Import Py.
Local Open Scope py_scope.

(** [context.object.mode] *)
Inductive Mode : Type := OBJECT | EDIT | POSE.

Definition Mode_eqb (a b : Mode) : bool :=
  match a, b with
  | OBJECT, OBJECT | EDIT, EDIT | POSE, POSE => true
  | _, _ => false
  end.

(** A bone of the armature, with the attributes the operators read or
    write; [parent] holds the parent's name. *)
Record Bone : Type := {
  name : string;
  parent : option string;
  use_connect : bool;
  hide : bool;
  select : bool
}.

Definition set_parent (p : option string) (b : Bone) : Bone :=
  {| name := name b; parent := p; use_connect := use_connect b;
     hide := hide b; select := select b |}.

Definition set_use_connect (u : bool) (b : Bone) : Bone :=
  {| name := name b; parent := parent b; use_connect := u;
     hide := hide b; select := select b |}.

Definition set_hide (h : bool) (b : Bone) : Bone :=
  {| name := name b; parent := parent b; use_connect := use_connect b;
     hide := h; select := select b |}.

(** The active armature object as the operators see it.  [bones] is
    [rig.data.bones] and [edit_bones] is [rig.data.edit_bones];
    [mode_set_calls] logs the calls of [bpy.ops.object.mode_set] and
    [reports] those of [self.report]. *)
Record Context : Type := {
  mode : Mode;
  use_mirror_x : bool;
  bones : list Bone;
  edit_bones : list Bone;
  mode_set_calls : list Mode;
  reports : list (string * string)
}.

(** [bpy.ops.object.mode_set(mode=m)]: the host builds the edit bones from
    the bones when edit mode is entered and writes them back when it is
    left. *)
Definition mode_set (m : Mode) (c : Context) : Context :=
  {| mode := m;
     use_mirror_x := use_mirror_x c;
     bones := if Mode_eqb (mode c) EDIT && negb (Mode_eqb m EDIT)
              then edit_bones c else bones c;
     edit_bones := if negb (Mode_eqb (mode c) EDIT) && Mode_eqb m EDIT
                   then bones c else edit_bones c;
     mode_set_calls := mode_set_calls c ++ [m];
     reports := reports c |}.

Definition set_edit_bones (l : list Bone) (c : Context) : Context :=
  {| mode := mode c; use_mirror_x := use_mirror_x c; bones := bones c;
     edit_bones := l; mode_set_calls := mode_set_calls c;
     reports := reports c |}.

Definition report (level text : string) (c : Context) : Context :=
  {| mode := mode c; use_mirror_x := use_mirror_x c; bones := bones c;
     edit_bones := edit_bones c; mode_set_calls := mode_set_calls c;
     reports := reports c ++ [(level, text)] |}.

(** [collection.get(key)] *)
Definition get_bone (key : string) (l : list Bone) : option Bone :=
  find (fun b => String.eqb (name b) key) l.

(** Assignment to an attribute of the bone called [key]. *)
Fixpoint update_bone (key : string) (f : Bone -> Bone) (l : list Bone) : list Bone :=
  match l with
  | [] => []
  | b :: l' => if String.eqb (name b) key then f b :: l'
               else b :: update_bone key f l'
  end.

(** [edit_bones.remove(eb)]: the host hands the children of the removed
    bone to its parent, unconnected. *)
Definition remove_bone (key : string) (l : list Bone) : list Bone :=
  let grand := match get_bone key l with Some b => parent b | None => None end in
  map (fun b => match parent b with
                | Some p => if String.eqb p key
                            then set_use_connect false (set_parent grand b) else b
                | None => b
                end)
      (filter (fun b => negb (String.eqb (name b) key)) l).

(** [get_selected_bones(context)] with an armature as active object; the
    selected pose bones are the bones whose [select] is set. *)
Definition get_selected_bones (c : Context) : list Bone :=
  match mode c with
  | POSE => filter select (bones c)
  | EDIT => filter select (edit_bones c)
  | OBJECT => []
  end.

(** [GenericBoneOperator.poll] *)
Definition GenericBoneOperator_poll (c : Context) : bool :=
  match mode c with POSE | EDIT => true | OBJECT => false end.

(** The abstract method of [GenericBoneOperator]: [affect_bone key l] runs
    [self.affect_bone(eb)] on the edit bone called [key] of the edit bones [l]. *)
Class GenericBoneOperator : Type := {
  affect_bone : string -> list Bone -> list Bone * bool
}.

Section Operators.

(** [bpy.utils.flip_name] *)
Variable flip_name : string -> string.

(** Lines 68-76 of [affect_bones]: the loop runs over the copy
    [bone_names[:]] and appends to [bone_names]. *)
Fixpoint add_flipped (data_bones : list Bone) (copy bone_names : list string)
    : list string :=
  match copy with
  | [] => bone_names
  | bone_name :: rest =>
      let flipped_name := flip_name bone_name in
      if String.eqb bone_name flipped_name
      then add_flipped data_bones rest bone_names
      else match get_bone flipped_name data_bones with
           | None => add_flipped data_bones rest bone_names
           | Some _ => add_flipped data_bones rest (bone_names ++ [flipped_name])
           end
  end.

(** Lines 78-83: [edit_bones[bone_name]] raises when there is no such bone. *)
Fixpoint affect_each `{GenericBoneOperator} (bone_names affected_bones : list string)
    : M Context (list string) :=
  match bone_names with
  | [] => ret affected_bones
  | bone_name :: rest =>
      c <- get ;;
      match get_bone bone_name (edit_bones c) with
      | None => raise (KeyError bone_name)
      | Some _ =>
          let (l, was_affected) := affect_bone bone_name (edit_bones c) in
          modify (set_edit_bones l) ;;;
          affect_each rest
            (if was_affected then affected_bones ++ [bone_name] else affected_bones)
      end
  end.

(** The names [affect_bones] goes through, computed as lines 64-76 do. *)
Definition bone_names_of (c : Context) : list string :=
  let bone_names := map name (get_selected_bones c) in
  if use_mirror_x c then add_flipped (bones c) bone_names bone_names
  else bone_names.

Definition affect_bones `{GenericBoneOperator} : M Context (list string) :=
  rig <- get ;;
  let mode := mode rig in
  let bone_names := map name (get_selected_bones rig) in
  (if negb (Mode_eqb mode EDIT) then modify (mode_set EDIT) else ret tt) ;;;
  rig <- get ;;
  let bone_names :=
    if use_mirror_x rig then add_flipped (bones rig) bone_names bone_names
    else bone_names in
  affected_bones <- affect_each bone_names [] ;;
  modify (mode_set mode) ;;;
  ret affected_bones.

(** [POSE_OT_disconnect_bones.affect_bone] *)
Definition disconnect_affect_bone (eb : Bone) : Bone * bool :=
  match parent eb with
  | Some _ => (set_parent None eb, true)
  | None => (eb, false)
  end.

(** [POSE_OT_unparent_bones.affect_bone] *)
Definition unparent_affect_bone (eb : Bone) : Bone * bool :=
  match parent eb with
  | Some _ => (set_parent None eb, true)
  | None => (eb, false)
  end.

(** A method that only assigns to attributes of its bone. *)
Definition on_bone (f : Bone -> Bone * bool) (key : string) (l : list Bone)
    : list Bone * bool :=
  match get_bone key l with
  | Some eb => (update_bone key (fun b => fst (f b)) l, snd (f eb))
  | None => (l, false)
  end.

#[local] Instance POSE_OT_disconnect_bones : GenericBoneOperator :=
  {| affect_bone := on_bone disconnect_affect_bone |}.

#[local] Instance POSE_OT_unparent_bones : GenericBoneOperator :=
  {| affect_bone := on_bone unparent_affect_bone |}.

(** [POSE_OT_delete_bones.affect_bone] *)
#[local] Instance POSE_OT_delete_bones : GenericBoneOperator :=
  {| affect_bone := fun key l =>
       (remove_bone key (update_bone key (set_hide false) l), true) |}.

(** [POSE_OT_disconnect_bones.poll] and [POSE_OT_unparent_bones.poll] *)
Definition disconnect_poll (c : Context) : bool :=
  GenericBoneOperator_poll c && existsb use_connect (get_selected_bones c).

Definition unparent_poll (c : Context) : bool :=
  GenericBoneOperator_poll c
  && existsb (fun b => match parent b with Some _ => true | None => false end)
       (get_selected_bones c).

(** The three [execute] methods differ in the operator and in the first
    word of the message. *)
Definition message (done : string) (affected : list string) : string :=
  let plural := if Nat.eqb (List.length affected) 1 then EmptyString else "s" in
  done +++ " " +++ str (List.length affected) +++ " bone" +++ plural +++ ".".

Definition execute_with `{GenericBoneOperator} (done : string) : M Context string :=
  affected <- affect_bones ;;
  modify (report "INFO" (message done affected)) ;;;
  ret "FINISHED".

Definition disconnect_execute : M Context string :=
  @execute_with POSE_OT_disconnect_bones "Disconnected".

Definition unparent_execute : M Context string :=
  @execute_with POSE_OT_unparent_bones "Unparented".

Definition delete_execute : M Context string :=
  @execute_with POSE_OT_delete_bones "Deleted".

End Operators.


(** *** Facts about the bone operators *)

Lemma get_bone_Some_name (key : string) (l : list Bone) (b : Bone) :
  get_bone key l = Some b -> name b = key.
Proof.
  unfold get_bone. intros H. apply find_some in H. destruct H as [_ H].
  now apply String.eqb_eq.
Qed.

Lemma get_bone_In (key : string) (l : list Bone) :
  get_bone key l <> None <-> In key (map name l).
Proof.
  unfold get_bone. induction l as [|b l IH]; simpl.
  - split; [congruence | tauto].
  - destruct (String.eqb (name b) key) eqn:E.
    + apply String.eqb_eq in E. split; [auto | congruence].
    + apply String.eqb_neq in E. rewrite IH. split; [auto | intros [H|H]; tauto].
Qed.

(** The loop over the names leaves the mode, the log of mode changes, the
    bones and the X-mirror option alone, however it ends. *)
Lemma affect_each_frame (op : GenericBoneOperator) (names acc : list string)
    (c : Context) :
  let c' := fst (affect_each names acc c) in
  mode c' = mode c /\ mode_set_calls c' = mode_set_calls c
  /\ bones c' = bones c /\ use_mirror_x c' = use_mirror_x c.
Proof.
  revert acc c. induction names as [|n names IH]; intros acc c; simpl.
  - auto.
  - unfold bind, get, raise, modify.
    destruct (get_bone n (edit_bones c)); simpl; [|auto].
    destruct (affect_bone n (edit_bones c)) as [l was]. simpl.
    specialize (IH (if was then acc ++ [n] else acc) (set_edit_bones l c)).
    simpl in IH. exact IH.
Qed.

(** The disconnect and the unparent operator are the same operator. *)
Lemma disconnect_operator_eq :
  POSE_OT_disconnect_bones = POSE_OT_unparent_bones.
Proof. reflexivity. Qed.

Section Facts.

Variable flip_name : string -> string.

(** The names appended for X-mirror are the flipped names of the entries
    of the copy that can be flipped onto a bone of the armature. *)
Lemma In_add_flipped (data : list Bone) (copy names : list string) (n : string) :
  In n (add_flipped flip_name data copy names) <->
  In n names \/
  exists s, In s copy /\ flip_name s <> s /\ get_bone (flip_name s) data <> None
            /\ n = flip_name s.
Proof.
  revert names. induction copy as [|s copy IH]; intros names; simpl.
  - split; [auto | intros [H | (s & [] & _)]; exact H].
  - destruct (String.eqb s (flip_name s)) eqn:E.
    + apply String.eqb_eq in E. rewrite IH. split.
      * intros [H | (t & Ht & H)]; [now left | right; exists t; simpl; tauto].
      * intros [H | (t & [Ht | Ht] & Hne & H)]; [now left | | right; exists t; simpl; tauto].
        subst t. congruence.
    + apply String.eqb_neq in E.
      destruct (get_bone (flip_name s) data) eqn:G.
      * rewrite IH, in_app_iff. simpl. split.
        -- intros [[H | [H | []]] | (t & Ht & H)].
           ++ now left.
           ++ right. exists s. repeat split; auto; congruence.
           ++ right. exists t. simpl. tauto.
        -- intros [H | (t & [Ht | Ht] & Hne & Hg & H)].
           ++ left. now left.
           ++ subst t. left. right. left. now symmetry.
           ++ right. exists t. simpl. tauto.
      * rewrite IH. split.
        -- intros [H | (t & Ht & H)]; [now left | right; exists t; simpl; tauto].
        -- intros [H | (t & [Ht | Ht] & Hne & Hg & H)];
             [now left | | right; exists t; simpl; tauto].
           subst t. congruence.
Qed.

(** The names that [affect_bones] sets out to process: the selected bones
    and, under X-mirror, the existing opposites of the selected bones. *)
Lemma In_bone_names_of (c : Context) (n : string) :
  In n (bone_names_of flip_name c) <->
  In n (map name (get_selected_bones c)) \/
  (use_mirror_x c = true /\
   exists s, In s (map name (get_selected_bones c)) /\ flip_name s <> s
             /\ In (flip_name s) (map name (bones c)) /\ n = flip_name s).
Proof.
  unfold bone_names_of. destruct (use_mirror_x c).
  - rewrite In_add_flipped. split.
    + intros [H | (s & Hs & Hne & Hg & ->)]; [now left | right].
      split; [reflexivity | exists s]. rewrite <- (get_bone_In (flip_name s) (bones c)). repeat split; assumption || reflexivity.
    + intros [H | [_ (s & Hs & Hne & Hg & ->)]]; [now left | right].
      exists s. rewrite (get_bone_In (flip_name s) (bones c)). repeat split; assumption || reflexivity.
  - split; [now left | intros [H | [H _]]; [exact H | discriminate]].
Qed.

(** What [affect_bones] does, in one equation. *)
Lemma affect_bones_unfold (op : GenericBoneOperator) (c : Context) :
  let entered := if Mode_eqb (mode c) EDIT then c else mode_set EDIT c in
  affect_bones flip_name c =
  match affect_each (bone_names_of flip_name c) [] entered with
  | (c', Returned affected) => (mode_set (mode c) c', Returned affected)
  | (c', Raised e) => (c', Raised e)
  end.
Proof.
  unfold affect_bones, bone_names_of, bind, get, modify, ret. simpl.
  destruct (Mode_eqb (mode c) EDIT) eqn:E; simpl.
  - destruct (affect_each _ _ c) as [c' [a|e]]; reflexivity.
  - destruct (mode c); try discriminate; simpl;
      destruct (affect_each _ _ _) as [c' [a|e]]; reflexivity.
Qed.

End Facts.

(** *** The mode is restored; disconnect and unparent; delete under X-mirror *)

Lemma update_bone_names (key : string) (f : Bone -> Bone) (l : list Bone) :
  (forall b, name (f b) = name b) ->
  map name (update_bone key f l) = map name l.
Proof.
  intros Hf. induction l as [|b l IH]; simpl; [reflexivity|].
  destruct (String.eqb (name b) key); simpl; [now rewrite Hf | now rewrite IH].
Qed.

Lemma unparent_keeps_name (b : Bone) : name (fst (unparent_affect_bone b)) = name b.
Proof. unfold unparent_affect_bone. now destruct (parent b). Qed.

(** With every name among the edit bones, the loop of the unparent
    operator runs to its end. *)
Lemma unparent_each_returns (names acc : list string) (c : Context) :
  (forall n, In n names -> In n (map name (edit_bones c))) ->
  exists c' affected,
    affect_each (H := POSE_OT_unparent_bones) names acc c = (c', Returned affected).
Proof.
  revert acc c. induction names as [|n names IH]; intros acc c Hin; simpl.
  - now exists c, acc.
  - unfold bind, get, raise, modify.
    destruct (get_bone n (edit_bones c)) as [eb|] eqn:G.
    + simpl. unfold on_bone. rewrite G. simpl. apply IH.
      intros m Hm. simpl.
      rewrite update_bone_names by apply unparent_keeps_name.
      apply Hin. now right.
    + exfalso. assert (H : In n (map name (edit_bones c))) by (apply Hin; now left).
      apply get_bone_In in H. congruence.
Qed.

Section Claims.

Variable flip_name : string -> string.

(** Started in pose mode, the unparent operator (and so the disconnect
    operator) always returns. *)
Lemma unparent_returns_from_pose_mode (c : Context) :
  mode c = POSE ->
  exists c' affected,
    affect_bones flip_name (H := POSE_OT_unparent_bones) c = (c', Returned affected).
Proof.
  intros Hm. rewrite affect_bones_unfold. cbv zeta. rewrite Hm. simpl.
  destruct (unparent_each_returns (bone_names_of flip_name c) [] (mode_set EDIT c))
    as (c' & a & E).
  - intros n Hn. unfold mode_set. simpl. rewrite Hm. simpl.
    apply In_bone_names_of in Hn.
    assert (Hsel : forall s, In s (map name (get_selected_bones c)) ->
                             In s (map name (bones c))).
    { intros s Hs. unfold get_selected_bones in Hs. rewrite Hm in Hs.
      apply in_map_iff in Hs. destruct Hs as (b & <- & Hb).
      apply filter_In in Hb. apply in_map. tauto. }
    destruct Hn as [Hn | [_ (s & _ & _ & Hs & ->)]]; auto.
  - rewrite E. eauto.
Qed.


(** C9: the per-bone step of the disconnect operator is the one of the
    unparent operator: the parent is cleared, the answer tells whether
    there was one, the connected flag and the other attributes stay; the
    runs of [affect_bones] coincide and the two [execute] differ in the
    word of the message. *)
Theorem disconnect_is_unparent :
  (forall eb : Bone,
     disconnect_affect_bone eb = unparent_affect_bone eb
     /\ parent (fst (disconnect_affect_bone eb)) = None
     /\ snd (disconnect_affect_bone eb)
        = match parent eb with Some _ => true | None => false end
     /\ name (fst (disconnect_affect_bone eb)) = name eb
     /\ use_connect (fst (disconnect_affect_bone eb)) = use_connect eb
     /\ hide (fst (disconnect_affect_bone eb)) = hide eb
     /\ select (fst (disconnect_affect_bone eb)) = select eb)
  /\ (forall c : Context,
        affect_bones flip_name (H := POSE_OT_disconnect_bones) c
        = affect_bones flip_name (H := POSE_OT_unparent_bones) c)
  /\ (forall c : Context,
        match affect_bones flip_name (H := POSE_OT_unparent_bones) c with
        | (c', Returned affected) =>
            disconnect_execute flip_name c
            = (report "INFO" (message "Disconnected" affected) c', Returned "FINISHED")
            /\ unparent_execute flip_name c
               = (report "INFO" (message "Unparented" affected) c', Returned "FINISHED")
        | (c', Raised e) =>
            disconnect_execute flip_name c = (c', Raised e)
            /\ unparent_execute flip_name c = (c', Raised e)
        end).
Proof.
  split; [|split].
  - intros eb. unfold disconnect_affect_bone, unparent_affect_bone.
    destruct (parent eb) eqn:P; simpl; rewrite ?P; repeat split; reflexivity.
  - reflexivity.
  - intros c. unfold disconnect_execute, unparent_execute, execute_with, bind, modify, ret.
    change (@affect_bones flip_name POSE_OT_disconnect_bones c)
      with (@affect_bones flip_name POSE_OT_unparent_bones c).
    destruct (affect_bones flip_name c) as [c' [a|e]]; split; reflexivity.
Qed.

End Claims.

(** *** Examples *)

Definition bone (n : string) (p : option string) (connected selected : bool) : Bone :=
  {| name := n; parent := p; use_connect := connected; hide := false;
     select := selected |}.

(** An arm and a leg on each side under a root; the two arms and the left
    leg are selected and X-mirror is on. *)
Definition both_arms_selected : Context :=
  {| mode := POSE;
     use_mirror_x := true;
     bones := [bone "root" None false false;
               bone "arm.L" (Some "root") false true;
               bone "arm.R" (Some "root") false true;
               bone "leg.L" (Some "root") false true;
               bone "leg.R" (Some "root") false false];
     edit_bones := [];
     mode_set_calls := [];
     reports := [] |}.


Example unparent_affects_each_bone_once :
  snd (unparent_execute flip_suffix both_arms_selected) = Returned "FINISHED"
  /\ reports (fst (unparent_execute flip_suffix both_arms_selected))
     = [("INFO", "Unparented 4 bones.")].
Proof. split; vm_compute; reflexivity. Qed.

(** A bone that has a parent and is not connected enables unparent and
    not disconnect. *)
Example polls_differ :
  let c := {| mode := EDIT; use_mirror_x := false; bones := [];
              edit_bones := [bone "root" None false false;
                             bone "arm.L" (Some "root") false true];
              mode_set_calls := []; reports := [] |} in
  unparent_poll c = true /\ disconnect_poll c = false.
Proof. split; reflexivity. Qed.

(** C8: with X-mirror on and both arms selected, the delete operator
    looks up the right arm a second time after having removed it; the
    lookup raises, the opposite of the left leg, which is one of the names
    to process, is never reached and stays, and the object is left in edit
    mode. *)
Theorem delete_stops_before_mirrored_bone :
  bone_names_of flip_suffix both_arms_selected
  = ["arm.L"; "arm.R"; "leg.L"; "arm.R"; "arm.L"; "leg.R"]
  /\ snd (affect_bones flip_suffix (H := POSE_OT_delete_bones) both_arms_selected)
     = Raised (KeyError "arm.R")
  /\ map name (edit_bones
       (fst (affect_bones flip_suffix (H := POSE_OT_delete_bones) both_arms_selected)))
     = ["root"; "leg.R"]
  /\ mode (fst (affect_bones flip_suffix (H := POSE_OT_delete_bones) both_arms_selected))
     = EDIT.
Proof. repeat split; vm_compute; reflexivity. Qed.

(** *** The names that are processed, and what unparent and delete leave *)

Definition is_some {A} (o : option A) : bool :=
  match o with Some _ => true | None => false end.

Lemma mem_true_In (x : string) (l : list string) : mem x l = true <-> In x l.
Proof.
  unfold mem. rewrite existsb_exists. split.
  - intros (y & Hy & E). apply String.eqb_eq in E. now subst.
  - intros H. exists x. split; [exact H | apply String.eqb_refl].
Qed.

Lemma get_bone_update (key : string) (f : Bone -> Bone) (l : list Bone) :
  (forall b, name (f b) = name b) ->
  get_bone key (update_bone key f l) = option_map f (get_bone key l).
Proof.
  intros Hf. unfold get_bone. induction l as [|b l IH]; simpl; [reflexivity|].
  destruct (String.eqb (name b) key) eqn:E; simpl.
  - now rewrite Hf, E.
  - now rewrite E.
Qed.

Lemma get_bone_update_other (key other : string) (f : Bone -> Bone) (l : list Bone) :
  (forall b, name (f b) = name b) -> other <> key ->
  get_bone other (update_bone key f l) = get_bone other l.
Proof.
  intros Hf Hne. unfold get_bone. induction l as [|b l IH]; simpl; [reflexivity|].
  destruct (String.eqb (name b) key) eqn:E; simpl.
  - rewrite Hf. apply String.eqb_eq in E.
    assert (N : String.eqb (name b) other = false)
      by (apply String.eqb_neq; congruence).
    now rewrite N.
  - destruct (String.eqb (name b) other); [reflexivity | exact IH].
Qed.

Lemma affect_each_reports (op : GenericBoneOperator) (names acc : list string)
    (c : Context) :
  reports (fst (affect_each names acc c)) = reports c.
Proof.
  revert acc c. induction names as [|n names IH]; intros acc c; simpl; [reflexivity|].
  unfold bind, get, raise, modify.
  destruct (get_bone n (edit_bones c)); simpl; [|reflexivity].
  destruct (affect_bone n (edit_bones c)) as [l was]. simpl.
  now rewrite IH.
Qed.

(** The bone of the unparent operator after its step. *)
Definition cleared (b : Bone) : Bone := fst (unparent_affect_bone b).

Lemma cleared_parent (b : Bone) : parent (cleared b) = None.
Proof.
  unfold cleared, unparent_affect_bone. destruct (parent b) eqn:P; simpl; auto.
Qed.

Lemma cleared_twice (b : Bone) : cleared (cleared b) = cleared b.
Proof.
  unfold cleared, unparent_affect_bone. destruct (parent b) eqn:P; simpl; [reflexivity|].
  now rewrite P.
Qed.

(** The edit bones after the unparent steps for [names]. *)
Definition clear_parents (names : list string) (l : list Bone) : list Bone :=
  fold_left (fun l n => update_bone n cleared l) names l.

Definition has_parent (n : string) (l : list Bone) : bool :=
  match get_bone n l with Some b => is_some (parent b) | None => false end.

(** The names that the unparent steps for [names] report. *)
Fixpoint reported (names : list string) (l : list Bone) : list string :=
  match names with
  | [] => []
  | n :: rest =>
      (if has_parent n l then [n] else []) ++ reported rest (update_bone n cleared l)
  end.

Lemma unparent_each_result (names acc : list string) (c : Context) :
  (forall n, In n names -> In n (map name (edit_bones c))) ->
  let r := affect_each (H := POSE_OT_unparent_bones) names acc c in
  snd r = Returned (acc ++ reported names (edit_bones c))
  /\ edit_bones (fst r) = clear_parents names (edit_bones c).
Proof.
  revert acc c. induction names as [|n names IH]; intros acc c Hin; cbv zeta.
  - simpl. now rewrite app_nil_r.
  - simpl affect_each. unfold bind, get, raise, modify.
    destruct (get_bone n (edit_bones c)) as [eb|] eqn:G.
    2:{ exfalso. assert (H : In n (map name (edit_bones c))) by (apply Hin; now left).
        apply get_bone_In in H. congruence. }
    simpl. unfold on_bone. rewrite G. cbv beta iota.
    match goal with
    | |- context [affect_each names ?a ?s] => specialize (IH a s)
    end.
    cbv zeta in IH. simpl edit_bones in IH.
    fold cleared in IH |- *.
    destruct IH as [I1 I2].
    { intros m Hm. rewrite update_bone_names by apply unparent_keeps_name.
      apply Hin. now right. }
    split.
    + rewrite I1. simpl reported. unfold has_parent. rewrite G.
      unfold unparent_affect_bone. destruct (parent eb); simpl.
      * now rewrite <- app_assoc.
      * reflexivity.
    + rewrite I2. reflexivity.
Qed.

Lemma get_bone_clear_parents (names : list string) (l : list Bone) (n : string) :
  get_bone n (clear_parents names l)
  = if mem n names then option_map cleared (get_bone n l) else get_bone n l.
Proof.
  revert l. induction names as [|m names IH]; intros l; [reflexivity|].
  unfold clear_parents. simpl fold_left. fold (clear_parents names (update_bone m cleared l)).
  rewrite IH. unfold mem. simpl existsb. fold (mem n names).
  destruct (String.eqb n m) eqn:E.
  - apply String.eqb_eq in E. subst m. simpl.
    rewrite get_bone_update by apply unparent_keeps_name.
    destruct (mem n names); [|reflexivity].
    destruct (get_bone n l); simpl; [now rewrite cleared_twice | reflexivity].
  - apply String.eqb_neq in E. simpl.
    now rewrite get_bone_update_other by (apply unparent_keeps_name || exact E).
Qed.

Lemma has_parent_update (n m : string) (l : list Bone) :
  has_parent n (update_bone m cleared l)
  = if String.eqb n m then false else has_parent n l.
Proof.
  unfold has_parent. destruct (String.eqb n m) eqn:E.
  - apply String.eqb_eq in E. subst m.
    rewrite get_bone_update by apply unparent_keeps_name.
    destruct (get_bone n l); simpl; [now rewrite cleared_parent | reflexivity].
  - apply String.eqb_neq in E.
    now rewrite get_bone_update_other by (apply unparent_keeps_name || exact E).
Qed.

Lemma In_reported (names : list string) (l : list Bone) (n : string) :
  In n (reported names l) <-> In n names /\ has_parent n l = true.
Proof.
  revert l. induction names as [|m names IH]; intros l; simpl; [tauto|].
  rewrite in_app_iff, IH, has_parent_update.
  destruct (String.eqb n m) eqn:E.
  - apply String.eqb_eq in E. subst m. split.
    + intros [H | [_ H]]; [|discriminate].
      destruct (has_parent n l) eqn:P; [|destruct H].
      split; [now left | reflexivity].
    + intros [_ H]. left. rewrite H. now left.
  - apply String.eqb_neq in E. split.
    + intros [H | [H1 H2]]; [|tauto].
      destruct (has_parent m l); simpl in H;
        [destruct H as [H | []]; congruence | destruct H].
    + intros [[H | H] P]; [congruence | tauto].
Qed.

Lemma NoDup_reported (names : list string) (l : list Bone) : NoDup (reported names l).
Proof.
  revert l. induction names as [|m names IH]; intros l; simpl; [constructor|].
  destruct (has_parent m l); simpl; [|apply IH].
  constructor; [|apply IH].
  rewrite In_reported, has_parent_update, String.eqb_refl. intros [_ H]. discriminate.
Qed.

(** A bone against itself after the unparent operator: only the parent
    may differ, and then it is gone. *)
Definition only_parent_cleared (b b' : Bone) : Prop :=
  name b' = name b /\ use_connect b' = use_connect b /\ hide b' = hide b
  /\ select b' = select b /\ (parent b' = parent b \/ parent b' = None).

Lemma only_parent_cleared_update (n : string) (l l' : list Bone) :
  Forall2 only_parent_cleared l l' ->
  Forall2 only_parent_cleared l (update_bone n cleared l').
Proof.
  induction 1 as [|b b' l l' Hb Hl IH]; simpl; [constructor|].
  destruct (String.eqb (name b') n).
  - constructor; [|exact Hl].
    destruct Hb as (H1 & H2 & H3 & H4 & H5).
    unfold only_parent_cleared, cleared, unparent_affect_bone.
    destruct (parent b') eqn:P; simpl; rewrite ?P; auto 10.
  - constructor; assumption.
Qed.

Lemma only_parent_cleared_refl (l : list Bone) : Forall2 only_parent_cleared l l.
Proof.
  induction l; constructor; auto. unfold only_parent_cleared. repeat split; auto.
Qed.

Lemma only_parent_cleared_all (names : list string) (l : list Bone) :
  Forall2 only_parent_cleared l (clear_parents names l).
Proof.
  generalize (only_parent_cleared_refl l). generalize l at 2 4 as l'.
  induction names as [|n names IH]; intros l' H; [exact H|].
  apply IH. now apply only_parent_cleared_update.
Qed.

Section Extras.

Variable flip_name : string -> string.

(** The closed form of the loop of lines 69-76. *)
Lemma add_flipped_app (data : list Bone) (copy names : list string) :
  add_flipped flip_name data copy names
  = names ++ map flip_name
      (filter (fun s => negb (String.eqb s (flip_name s))
                        && is_some (get_bone (flip_name s) data)) copy).
Proof.
  revert names. induction copy as [|s copy IH]; intros names; simpl.
  - now rewrite app_nil_r.
  - destruct (String.eqb s (flip_name s)); simpl; [apply IH|].
    destruct (get_bone (flip_name s) data); simpl; [|apply IH].
    rewrite IH. now rewrite <- app_assoc.
Qed.

(** X1: the names that [affect_bones] sets out to process are the names
    of the selected bones in their order, followed under X-mirror by the
    flipped name of every selected bone whose name flips to another name
    that a bone of the armature has; nothing is left out for being listed
    already. *)
Theorem names_to_process (c : Context) :
  bone_names_of flip_name c
  = map name (get_selected_bones c)
    ++ (if use_mirror_x c
        then map flip_name
               (filter (fun s => negb (String.eqb s (flip_name s))
                                 && is_some (get_bone (flip_name s) (bones c)))
                       (map name (get_selected_bones c)))
        else []).
Proof.
  unfold bone_names_of. destruct (use_mirror_x c).
  - apply add_flipped_app.
  - now rewrite app_nil_r.
Qed.

Lemma names_in_pose_mode (c : Context) (n : string) :
  mode c = POSE -> In n (bone_names_of flip_name c) -> In n (map name (bones c)).
Proof.
  intros Hm Hn. apply In_bone_names_of in Hn.
  destruct Hn as [Hn | [_ (s & _ & _ & Hs & ->)]]; [|exact Hs].
  unfold get_selected_bones in Hn. rewrite Hm in Hn.
  apply in_map_iff in Hn. destruct Hn as (b & <- & Hb).
  apply filter_In in Hb. apply in_map. tauto.
Qed.

(** What the unparent operator does from pose mode, in one equation. *)
Lemma unparent_from_pose_mode (c : Context) :
  mode c = POSE ->
  exists c1,
    affect_each (H := POSE_OT_unparent_bones) (bone_names_of flip_name c) []
      (mode_set EDIT c)
    = (c1, Returned (reported (bone_names_of flip_name c) (bones c)))
    /\ edit_bones c1 = clear_parents (bone_names_of flip_name c) (bones c)
    /\ mode c1 = EDIT
    /\ reports c1 = reports c
    /\ affect_bones flip_name (H := POSE_OT_unparent_bones) c
       = (mode_set POSE c1, Returned (reported (bone_names_of flip_name c) (bones c))).
Proof.
  intros Hm.
  assert (He : edit_bones (mode_set EDIT c) = bones c)
    by (unfold mode_set; simpl; now rewrite Hm).
  destruct (unparent_each_result (bone_names_of flip_name c) [] (mode_set EDIT c))
    as [R1 R2].
  { intros n Hn. rewrite He. now apply names_in_pose_mode. }
  pose proof (affect_each_frame POSE_OT_unparent_bones (bone_names_of flip_name c) []
                (mode_set EDIT c)) as F.
  pose proof (affect_each_reports POSE_OT_unparent_bones (bone_names_of flip_name c) []
                (mode_set EDIT c)) as Rp.
  cbv zeta in *. rewrite He in R1, R2.
  destruct (affect_each (bone_names_of flip_name c) [] (mode_set EDIT c))
    as [c1 out] eqn:E.
  cbn [fst snd] in *. subst out. destruct F as (F1 & _).
  exists c1. split; [reflexivity|]. split; [exact R2|]. split; [exact F1|].
  split; [exact Rp|].
  rewrite affect_bones_unfold. cbv zeta. rewrite Hm. simpl. now rewrite E.
Qed.

(** X2: started in pose mode, the unparent operator returns
    [{'FINISHED'}], leaves the object in pose mode and reports once. *)
Theorem unparent_finishes_from_pose_mode (c : Context) :
  mode c = POSE ->
  exists affected,
    snd (unparent_execute flip_name c) = Returned "FINISHED"
    /\ mode (fst (unparent_execute flip_name c)) = POSE
    /\ reports (fst (unparent_execute flip_name c))
       = reports c ++ [("INFO", message "Unparented" affected)].
Proof.
  intros Hm. destruct (unparent_from_pose_mode c Hm) as (c1 & _ & _ & _ & Hr & E).
  exists (reported (bone_names_of flip_name c) (bones c)).
  unfold unparent_execute, execute_with, bind, modify, ret. rewrite E. simpl.
  now rewrite Hr.
Qed.

(** X3: after the unparent operator, run from pose mode, every bone
    whose name was to be processed has no parent, a bone with another name
    is found as before, and no bone was added, removed, renamed or changed
    in another attribute than its parent. *)
Theorem unparent_clears_parents (c : Context) :
  mode c = POSE ->
  let bones' := bones (fst (unparent_execute flip_name c)) in
  (forall n b, In n (bone_names_of flip_name c) ->
               get_bone n bones' = Some b -> parent b = None)
  /\ (forall n, In n (bone_names_of flip_name c) -> get_bone n bones' <> None)
  /\ (forall n, ~ In n (bone_names_of flip_name c) ->
                get_bone n bones' = get_bone n (bones c))
  /\ Forall2 only_parent_cleared (bones c) bones'.
Proof.
  intros Hm. destruct (unparent_from_pose_mode c Hm) as (c1 & _ & He & Hm1 & _ & E).
  assert (B : bones (fst (unparent_execute flip_name c))
              = clear_parents (bone_names_of flip_name c) (bones c)).
  { unfold unparent_execute, execute_with, bind, modify, ret. rewrite E. simpl.
    now rewrite Hm1, He. }
  cbv zeta. rewrite B. repeat split.
  - intros n b Hn Hb. rewrite get_bone_clear_parents in Hb.
    apply mem_true_In in Hn. rewrite Hn in Hb.
    destruct (get_bone n (bones c)); [|discriminate].
    injection Hb as <-. apply cleared_parent.
  - intros n Hn. rewrite get_bone_clear_parents.
    pose proof (names_in_pose_mode c n Hm Hn) as Hb. apply get_bone_In in Hb.
    apply mem_true_In in Hn. rewrite Hn.
    destruct (get_bone n (bones c)); [discriminate | congruence].
  - intros n Hn. rewrite get_bone_clear_parents.
    destruct (mem n (bone_names_of flip_name c)) eqn:M; [|reflexivity].
    apply mem_true_In in M. contradiction.
  - apply only_parent_cleared_all.
Qed.

(** X4: the bones that the unparent operator, run from pose mode,
    returns as affected are the processed names whose bone had a parent,
    each of them once, also when a name is processed twice. *)
Theorem unparent_counts_each_bone_once (c : Context) :
  mode c = POSE ->
  exists affected,
    snd (affect_bones flip_name (H := POSE_OT_unparent_bones) c) = Returned affected
    /\ NoDup affected
    /\ forall n, In n affected <->
                 In n (bone_names_of flip_name c)
                 /\ exists b p, get_bone n (bones c) = Some b /\ parent b = Some p.
Proof.
  intros Hm. destruct (unparent_from_pose_mode c Hm) as (c1 & _ & _ & _ & _ & E).
  exists (reported (bone_names_of flip_name c) (bones c)). rewrite E.
  split; [reflexivity|]. split; [apply NoDup_reported|].
  intros n. rewrite In_reported. unfold has_parent. split.
  - intros [Hn Hp]. split; [exact Hn|].
    destruct (get_bone n (bones c)) as [b|]; [|discriminate].
    destruct (parent b) as [p|] eqn:P; [|discriminate]. now exists b, p.
  - intros [Hn (b & p & Hb & Hp)]. split; [exact Hn|]. now rewrite Hb, Hp.
Qed.

End Extras.

(** *** The delete operator *)

Lemma kept_names (key : string) (g : Bone -> Bone) (l : list Bone) :
  (forall b, name (g b) = name b) ->
  map name (map g (filter (fun b => negb (String.eqb (name b) key)) l))
  = filter (fun m => negb (String.eqb m key)) (map name l).
Proof.
  intros Hg. induction l as [|b l IH]; simpl; [reflexivity|].
  destruct (String.eqb (name b) key); simpl; [exact IH|].
  now rewrite IH, Hg.
Qed.

Lemma remove_bone_names (key : string) (l : list Bone) :
  map name (remove_bone key l)
  = filter (fun m => negb (String.eqb m key)) (map name l).
Proof.
  unfold remove_bone. apply kept_names. intros b.
  destruct (parent b) as [p|]; [|reflexivity].
  now destruct (String.eqb p key).
Qed.

Lemma delete_step_names (key : string) (l : list Bone) :
  map name (fst (affect_bone (GenericBoneOperator := POSE_OT_delete_bones) key l))
  = filter (fun m => negb (String.eqb m key)) (map name l).
Proof.
  simpl. rewrite remove_bone_names. now rewrite update_bone_names.
Qed.

Lemma filter_names_twice (p q : string -> bool) (l : list string) :
  filter p (filter q l) = filter (fun x => q x && p x) l.
Proof.
  induction l as [|x l IH]; simpl; [reflexivity|].
  destruct (q x); simpl; [destruct (p x); now rewrite IH | exact IH].
Qed.

(** Without a repeated name, and with every name among the edit bones,
    the loop of the delete operator removes the named bones and returns
    them all as affected. *)
Lemma delete_each_result (names acc : list string) (c : Context) :
  NoDup names ->
  (forall n, In n names -> In n (map name (edit_bones c))) ->
  let r := affect_each (H := POSE_OT_delete_bones) names acc c in
  snd r = Returned (acc ++ names)
  /\ map name (edit_bones (fst r))
     = filter (fun m => negb (mem m names)) (map name (edit_bones c)).
Proof.
  revert acc c. induction names as [|n names IH]; intros acc c Hnd Hin; cbv zeta.
  - simpl. rewrite app_nil_r. split; [reflexivity|].
    generalize (map name (edit_bones c)). intros l.
    induction l as [|x l IHl]; simpl; [reflexivity | now rewrite <- IHl].
  - inversion Hnd as [|? ? Hn Hnd']; subst.
    simpl affect_each. unfold bind, get, raise, modify.
    destruct (get_bone n (edit_bones c)) as [eb|] eqn:G.
    2:{ exfalso. assert (H : In n (map name (edit_bones c))) by (apply Hin; now left).
        apply get_bone_In in H. congruence. }
    pose proof (delete_step_names n (edit_bones c)) as Hstep.
    destruct (affect_bone n (edit_bones c)) as [l was] eqn:A.
    simpl in A. injection A as <- <-.
    simpl in Hstep. cbv beta iota.
    match goal with
    | |- context [affect_each names ?a ?s] => specialize (IH a s Hnd')
    end.
    cbv zeta in IH.
    simpl edit_bones in IH. destruct IH as [I1 I2].
    { intros m Hm. rewrite Hstep. apply filter_In. split.
      - apply Hin. now right.
      - apply negb_true_iff, String.eqb_neq. intros ->. contradiction. }
    simpl. split.
    + rewrite I1. now rewrite <- app_assoc.
    + rewrite I2, Hstep, filter_names_twice. apply filter_ext. intros m.
      unfold mem. simpl. now rewrite negb_orb.
Qed.

(** A name that no edit bone has makes the loop of the delete operator
    raise. *)
Lemma delete_raises_on_missing (names acc : list string) (c : Context) (n : string) :
  In n names -> ~ In n (map name (edit_bones c)) ->
  exists k, snd (affect_each (H := POSE_OT_delete_bones) names acc c)
            = Raised (KeyError k).
Proof.
  revert acc c. induction names as [|m names IH]; intros acc c Hn Hmiss; [destruct Hn|].
  simpl affect_each. unfold bind, get, raise, modify.
  destruct (get_bone m (edit_bones c)) as [eb|] eqn:G; [|now exists m].
  pose proof (delete_step_names m (edit_bones c)) as Hstep.
  simpl in Hstep. cbv beta iota.
  apply IH.
  - destruct Hn as [<- | Hn]; [|exact Hn].
    exfalso. apply Hmiss. apply get_bone_In. congruence.
  - simpl. rewrite Hstep. intros H. apply filter_In in H. tauto.
Qed.

(** A name that is listed twice makes the loop of the delete operator
    raise. *)
Lemma delete_raises_on_repeat (names acc : list string) (c : Context) :
  ~ NoDup names ->
  exists k, snd (affect_each (H := POSE_OT_delete_bones) names acc c)
            = Raised (KeyError k).
Proof.
  revert acc c. induction names as [|m names IH]; intros acc c Hnd.
  - exfalso. apply Hnd. constructor.
  - simpl affect_each. unfold bind, get, raise, modify.
    destruct (get_bone m (edit_bones c)) as [eb|] eqn:G; [|now exists m].
    pose proof (delete_step_names m (edit_bones c)) as Hstep.
    simpl in Hstep. cbv beta iota.
    destruct (in_dec string_dec m names) as [Hm | Hm].
    + apply (delete_raises_on_missing names _ _ m Hm).
      simpl. rewrite Hstep. intros H. apply filter_In in H. destruct H as [_ H].
      now rewrite String.eqb_refl in H.
    + apply IH. intros H. apply Hnd. now constructor.
Qed.

Lemma NoDup_app_common (l1 l2 : list string) (x : string) :
  In x l1 -> In x l2 -> ~ NoDup (l1 ++ l2).
Proof.
  intros H1 H2 H. induction l1 as [|a l1 IH]; [destruct H1|].
  inversion H as [|? ? Ha Hl]; subst. destruct H1 as [-> | H1].
  - apply Ha. apply in_or_app. now right.
  - now apply IH.
Qed.

Section DeleteExtras.

Variable flip_name : string -> string.

(** X5: started in pose mode with no name to process listed twice, the
    delete operator returns [{'FINISHED'}], leaves the object in pose mode,
    reports every processed name as deleted, and the armature keeps the
    bones with the other names, in their order. *)
Theorem delete_removes_named_bones (c : Context) :
  mode c = POSE ->
  NoDup (bone_names_of flip_name c) ->
  let c' := fst (delete_execute flip_name c) in
  snd (delete_execute flip_name c) = Returned "FINISHED"
  /\ mode c' = POSE
  /\ map name (bones c')
     = filter (fun m => negb (mem m (bone_names_of flip_name c))) (map name (bones c))
  /\ reports c'
     = reports c ++ [("INFO", message "Deleted" (bone_names_of flip_name c))].
Proof.
  intros Hm Hnd.
  assert (He : edit_bones (mode_set EDIT c) = bones c)
    by (unfold mode_set; simpl; now rewrite Hm).
  destruct (delete_each_result (bone_names_of flip_name c) [] (mode_set EDIT c) Hnd)
    as [R1 R2].
  { intros n Hn. rewrite He. now apply (names_in_pose_mode flip_name). }
  pose proof (affect_each_frame POSE_OT_delete_bones (bone_names_of flip_name c) []
                (mode_set EDIT c)) as F.
  pose proof (affect_each_reports POSE_OT_delete_bones (bone_names_of flip_name c) []
                (mode_set EDIT c)) as Rp.
  cbv zeta in *. rewrite He in R2.
  assert (E : affect_bones flip_name (H := POSE_OT_delete_bones) c
              = (mode_set POSE
                   (fst (affect_each (H := POSE_OT_delete_bones)
                           (bone_names_of flip_name c) [] (mode_set EDIT c))),
                 Returned (bone_names_of flip_name c))).
  { rewrite affect_bones_unfold. cbv zeta. rewrite Hm. simpl.
    destruct (affect_each (bone_names_of flip_name c) [] (mode_set EDIT c))
      as [c1 out]. simpl in R1. now subst out. }
  unfold delete_execute, execute_with, bind, modify, ret. rewrite E.
  destruct F as (F1 & _).
  destruct (affect_each (bone_names_of flip_name c) [] (mode_set EDIT c)) as [c1 out].
  simpl in *. rewrite F1. simpl. rewrite Rp. repeat split. exact R2.
Qed.

(** X6: started in pose mode with X-mirror on and a bone selected
    together with the bone of its flipped name, the delete operator raises
    [KeyError] and leaves the object in edit mode. *)
Theorem delete_raises_when_both_sides_selected (c : Context) (s : string) :
  mode c = POSE ->
  use_mirror_x c = true ->
  In s (map name (get_selected_bones c)) ->
  In (flip_name s) (map name (get_selected_bones c)) ->
  flip_name s <> s ->
  exists k,
    snd (delete_execute flip_name c) = Raised (KeyError k)
    /\ mode (fst (delete_execute flip_name c)) = EDIT.
Proof.
  intros Hm Hx Hs Hf Hne.
  assert (Hnd : ~ NoDup (bone_names_of flip_name c)).
  { unfold bone_names_of. rewrite Hx, add_flipped_app.
    apply (NoDup_app_common _ _ (flip_name s) Hf).
    apply in_map. apply filter_In. split; [exact Hs|].
    apply andb_true_iff. split.
    - apply negb_true_iff, String.eqb_neq. congruence.
    - assert (Hb : In (flip_name s) (map name (bones c))).
      { apply (names_in_pose_mode flip_name c _ Hm). apply In_bone_names_of. now left. }
      apply get_bone_In in Hb. now destruct (get_bone (flip_name s) (bones c)). }
  destruct (delete_raises_on_repeat (bone_names_of flip_name c) [] (mode_set EDIT c) Hnd)
    as (k & Hk).
  pose proof (affect_each_frame POSE_OT_delete_bones (bone_names_of flip_name c) []
                (mode_set EDIT c)) as F.
  cbv zeta in F. destruct F as (F1 & _).
  exists k. unfold delete_execute, execute_with, bind.
  rewrite affect_bones_unfold. cbv zeta. rewrite Hm. simpl.
  destruct (affect_each (bone_names_of flip_name c) [] (mode_set EDIT c)) as [c1 out].
  simpl in *. subst out. split; [reflexivity | exact F1].
Qed.

End DeleteExtras.

(** The left arm is selected and X-mirror is on. *)
Definition left_arm_selected : Context :=
  {| mode := POSE;
     use_mirror_x := true;
     bones := [bone "root" None false false;
               bone "arm.L" (Some "root") true true;
               bone "arm.R" (Some "root") true false;
               bone "hand.R" (Some "arm.R") true false];
     edit_bones := [];
     mode_set_calls := [];
     reports := [] |}.

Lemma unparent_finishes_from_pose_mode_witness :
  exists affected,
    snd (unparent_execute flip_suffix both_arms_selected) = Returned "FINISHED"
    /\ mode (fst (unparent_execute flip_suffix both_arms_selected)) = POSE
    /\ reports (fst (unparent_execute flip_suffix both_arms_selected))
       = reports both_arms_selected ++ [("INFO", message "Unparented" affected)].
Proof.
  apply (unparent_finishes_from_pose_mode flip_suffix both_arms_selected). reflexivity.
Defined.

Lemma unparent_clears_parents_witness :
  Forall2 only_parent_cleared (bones both_arms_selected)
    (bones (fst (unparent_execute flip_suffix both_arms_selected)))
  /\ get_bone "root" (bones (fst (unparent_execute flip_suffix both_arms_selected)))
     = get_bone "root" (bones both_arms_selected).
Proof.
  destruct (unparent_clears_parents flip_suffix both_arms_selected)
    as (_ & _ & H3 & H4).
  - reflexivity.
  - split; [exact H4|]. apply H3. vm_compute. intuition discriminate.
Defined.

Lemma unparent_counts_each_bone_once_witness :
  exists affected,
    snd (affect_bones flip_suffix (H := POSE_OT_unparent_bones) both_arms_selected)
    = Returned affected
    /\ NoDup affected.
Proof.
  destruct (unparent_counts_each_bone_once flip_suffix both_arms_selected)
    as (affected & H1 & H2 & _).
  - reflexivity.
  - exists affected. split; assumption.
Defined.

Lemma delete_removes_named_bones_witness :
  snd (delete_execute flip_suffix left_arm_selected) = Returned "FINISHED"
  /\ map name (bones (fst (delete_execute flip_suffix left_arm_selected)))
     = ["root"; "hand.R"].
Proof.
  destruct (delete_removes_named_bones flip_suffix left_arm_selected)
    as (H1 & _ & H3 & _).
  - reflexivity.
  - vm_compute. repeat constructor; simpl; intuition discriminate.
  - split; [exact H1 | exact H3].
Defined.

Lemma delete_raises_when_both_sides_selected_witness :
  exists k,
    snd (delete_execute flip_suffix both_arms_selected) = Raised (KeyError k)
    /\ mode (fst (delete_execute flip_suffix both_arms_selected)) = EDIT.
Proof.
  apply (delete_raises_when_both_sides_selected flip_suffix both_arms_selected "arm.L").
  - reflexivity.
  - reflexivity.
  - simpl. tauto.
  - simpl. tauto.
  - vm_compute. discriminate.
Defined.
End BoneParentingOps.

(** ** symmetrize.py *)

Module Symmetrize.

Import Py.
Local Open Scope py_scope.

Inductive Mode : Type := OBJECT | EDIT | POSE.

(** What an operator's [execute] returns: [{'FINISHED'}] or [{'CANCELLED'}]. *)
Inductive OperatorReturn : Type := FINISHED | CANCELLED.

(** A target of a driver variable. *)
Record DriverTarget : Type := {
  id_type : string;
  id : string;
  rotation_mode : string;
  bone_target : string;
  data_path : string;
  transform_type : string;
  transform_space : string
}.

Record DriverVariable : Type := {
  var_type : string;
  var_name : string;
  var_targets : list DriverTarget
}.

(** An entry of [armature.animation_data.drivers]: the F-curve's data path
    and array index with the driver it carries. *)
Record Driver : Type := {
  d_data_path : string;
  d_array_index : Z;
  expression : string;
  variables : list DriverVariable
}.

(** A keyframe point; numbers are rationals, on which the only arithmetic
    the code does, [x * -1], is exact. *)
Record Keyframe : Type := {
  co : Q * Q;
  handle_left : Q * Q;
  handle_right : Q * Q;
  interpolation : string
}.

Record FCurve : Type := {
  fc_data_path : string;
  fc_array_index : Z;
  group : string;
  keyframe_points : list Keyframe;
  extrapolation : string
}.

(** An action of [bpy.data.actions]; constraints refer to it by name. *)
Record Action : Type := {
  action_name : string;
  fcurves : list FCurve
}.

(** A target of an Armature constraint. *)
Record ArmatureTarget : Type := {
  target : string;
  subtarget : string;
  weight : Q
}.

Record Constraint : Type := {
  con_name : string;
  con_type : string;
  action : option string;
  min_x : Q;
  max_x : Q;
  track_axis : string;
  targets : list ArmatureTarget;
  influence : Q
}.

(** A pose bone with the flags of its edit bone and the names of the bone
    collections it is assigned to. *)
Record PoseBone : Type := {
  pb_name : string;
  constraints : list Constraint;
  collections : list string;
  eb_hide : bool;
  eb_select : bool
}.

(** The active object [context.object] with what the operator reaches
    from it.  [drivers] is [None] when the object has no animation data;
    [selected_pose_bones] is [context.selected_pose_bones]. *)
Record Rig : Type := {
  object_type : string;
  mode : Mode;
  pose_bones : list PoseBone;
  selected_pose_bones : list string;
  drivers : option (list Driver);
  actions : list Action;
  data_collections : list string;
  reports : list (string * string)
}.

(** *** Assignments *)

Definition set_pose_bones (l : list PoseBone) (r : Rig) : Rig :=
  {| object_type := object_type r; mode := mode r; pose_bones := l;
     selected_pose_bones := selected_pose_bones r; drivers := drivers r;
     actions := actions r; data_collections := data_collections r;
     reports := reports r |}.

Definition set_selected (l : list string) (r : Rig) : Rig :=
  {| object_type := object_type r; mode := mode r; pose_bones := pose_bones r;
     selected_pose_bones := l; drivers := drivers r;
     actions := actions r; data_collections := data_collections r;
     reports := reports r |}.

Definition set_drivers (d : option (list Driver)) (r : Rig) : Rig :=
  {| object_type := object_type r; mode := mode r; pose_bones := pose_bones r;
     selected_pose_bones := selected_pose_bones r; drivers := d;
     actions := actions r; data_collections := data_collections r;
     reports := reports r |}.

Definition set_actions (a : list Action) (r : Rig) : Rig :=
  {| object_type := object_type r; mode := mode r; pose_bones := pose_bones r;
     selected_pose_bones := selected_pose_bones r; drivers := drivers r;
     actions := a; data_collections := data_collections r;
     reports := reports r |}.

Definition set_mode (m : Mode) (r : Rig) : Rig :=
  {| object_type := object_type r; mode := m; pose_bones := pose_bones r;
     selected_pose_bones := selected_pose_bones r; drivers := drivers r;
     actions := actions r; data_collections := data_collections r;
     reports := reports r |}.

Definition report (level text : string) (r : Rig) : Rig :=
  {| object_type := object_type r; mode := mode r; pose_bones := pose_bones r;
     selected_pose_bones := selected_pose_bones r; drivers := drivers r;
     actions := actions r; data_collections := data_collections r;
     reports := reports r ++ [(level, text)] |}.

Definition set_constraints (l : list Constraint) (b : PoseBone) : PoseBone :=
  {| pb_name := pb_name b; constraints := l; collections := collections b;
     eb_hide := eb_hide b; eb_select := eb_select b |}.

Definition set_collections (l : list string) (b : PoseBone) : PoseBone :=
  {| pb_name := pb_name b; constraints := constraints b; collections := l;
     eb_hide := eb_hide b; eb_select := eb_select b |}.

Definition set_edit_flags (h s : bool) (b : PoseBone) : PoseBone :=
  {| pb_name := pb_name b; constraints := constraints b;
     collections := collections b; eb_hide := h; eb_select := s |}.

(** [rig.pose.bones.get(key)] *)
Definition get_pose_bone (key : string) (l : list PoseBone) : option PoseBone :=
  find (fun b => String.eqb (pb_name b) key) l.

(** Assignment to an attribute of the pose bone called [key]. *)
Fixpoint update_pose_bone (key : string) (f : PoseBone -> PoseBone)
    (l : list PoseBone) : list PoseBone :=
  match l with
  | [] => []
  | b :: l' => if String.eqb (pb_name b) key then f b :: l'
               else b :: update_pose_bone key f l'
  end.

(** Removal of the first element that satisfies [p]. *)
Fixpoint remove_first {A} (p : A -> bool) (l : list A) : list A :=
  match l with
  | [] => []
  | x :: l' => if p x then l' else x :: remove_first p l'
  end.

(** Assignment to the element at position [i]. *)
Fixpoint update_nth {A} (i : nat) (f : A -> A) (l : list A) : list A :=
  match l, i with
  | [], _ => []
  | x :: l', O => f x :: l'
  | x :: l', S j => x :: update_nth j f l'
  end.

(** *** The host and the [utils] module

    Functions the add-on calls and does not define.  [flip_name] is
    [bpy.utils.flip_name]; [armature_symmetrize] is the built-in operator
    [bpy.ops.armature.symmetrize]; [find_or_create_constraint] and the
    [copy_attributes] family are [utils.find_or_create_constraint] and
    [utils.copy_attributes] (one function for each kind of object it is
    called on, with the [skip] list); [driver_remove] and [driver_add]
    take the path of the object they are called on, the data path from
    that object and the index, and [driver_add] answers [None] when the
    host raises; [new_variable_targets] gives the
    targets of a fresh driver variable of a type and [new_keyframe] the
    point that [keyframe_points.insert] makes.

    [find_or_create_constraint l type name] answers with the constraints
    of the bone split around the constraint it returns, or [None] when it
    returns nothing. *)
Class Host : Type := {
  flip_name : string -> string;
  armature_symmetrize : Rig -> Rig;
  find_or_create_constraint :
    list Constraint -> string -> string ->
    option (list Constraint * Constraint * list Constraint);
  copy_attributes_constraint : Constraint -> Constraint -> list string -> Constraint;
  copy_attributes_fcurve : FCurve -> FCurve -> list string -> FCurve;
  copy_attributes_keyframe : Keyframe -> Keyframe -> list string -> Keyframe;
  driver_remove : list Driver -> string -> string -> option Z -> list Driver;
  driver_add : string -> string -> option Z -> option Driver;
  new_variable_targets : string -> list DriverTarget;
  new_keyframe : Q -> Q -> Keyframe
}.

Section Operator.

Context {host : Host}.

(** *** [POSE_OT_Symmetrize.poll] *)
Definition poll (context : Rig) : bool :=
  if negb (String.eqb (object_type context) "ARMATURE") then false
  else match mode context with
       | POSE =>
           existsb (fun bone => negb (String.eqb bone (flip_name bone)))
                   (selected_pose_bones context)
       | _ => false
       end.

(** *** [POSE_OT_Symmetrize.get_symmetrize_bone_mapping]

    The method returns a dictionary, the set [{'CANCELLED'}] or, when the
    loop runs to its end, nothing. *)
Inductive BoneMapping : Type :=
| ReturnedMap (bone_map : list (string * string))
| ReturnedCancelled
| ReturnedNone.

Definition both_sides_message (pb : string) : string :=
  "Bone selected on both sides: " +++ quoted pb +++
  ". Select only one side to clarify symmetrizing direction".

Definition cannot_flip_message (pb : string) : string :=
  "Bone name cannot be flipped: " +++ quoted pb +++
  ". Symmetrize will have no effect.".

(** The loop of lines 36-58 on the bones still to visit; [selected] is the
    copy [context.selected_pose_bones[:]].  Line 58 returns from inside
    the loop body. *)
Fixpoint mapping_loop (selected rest : list string) (bone_map : list (string * string))
    : M Rig BoneMapping :=
  match rest with
  | [] => ret ReturnedNone
  | pb :: rest' =>
      let flipped_name := flip_name pb in
      if String.eqb flipped_name pb then mapping_loop selected rest' bone_map
      else
        rig <- get ;;
        let opp_pb := option_map pb_name (get_pose_bone flipped_name (pose_bones rig)) in
        match opp_pb with
        | Some opp =>
            if mem opp selected then
              modify (report "ERROR" (both_sides_message pb)) ;;;
              ret ReturnedCancelled
            else if String.eqb opp pb then
              modify (report "WARNING" (cannot_flip_message pb)) ;;;
              modify (fun r => set_selected
                         (remove_first (String.eqb pb) (selected_pose_bones r)) r) ;;;
              mapping_loop selected rest' bone_map
            else ret (ReturnedMap (bone_map ++ [(pb, opp)]))
        | None => mapping_loop selected rest' bone_map
        end
  end.

Definition get_symmetrize_bone_mapping : M Rig BoneMapping :=
  context <- get ;;
  let selected_pose_bones := selected_pose_bones context in
  mapping_loop selected_pose_bones selected_pose_bones [].

(** *** [remove_constraint_with_drivers] *)

Definition constraint_prefix (pbone con : string) : string :=
  "pose.bones[" +++ quoted pbone +++ "].constraints[" +++ quoted con +++ "].".

Definition remove_constraint_with_drivers (pbone : string) (con : string)
    : M Rig unit :=
  armature <- get ;;
  (match drivers armature with
   | Some ds =>
       modify (set_drivers
         (Some (filter (fun fc => negb (startswith (constraint_prefix pbone con)
                                                   (d_data_path fc))) ds)))
   | None => ret tt
   end) ;;;
  armature <- get ;;
  match get_pose_bone pbone (pose_bones armature) with
  | None => raise ReferenceError
  | Some pb =>
      if existsb (fun c => String.eqb (con_name c) con) (constraints pb)
      then modify (fun r => set_pose_bones
             (update_pose_bone pbone
                (fun b => set_constraints
                   (remove_first (fun c => String.eqb (con_name c) con) (constraints b)) b)
                (pose_bones r)) r)
      else raise RuntimeError
  end.

(** Lines 68-69: the host's collection iterator has stepped to the next
    constraint before the body runs, so the loop reaches every constraint
    the bone had, although the body removes the one in hand. *)
Definition remove_constraints_of (to_pb : string) : M Rig unit :=
  rig <- get ;;
  match get_pose_bone to_pb (pose_bones rig) with
  | None => raise ReferenceError
  | Some pb =>
      for_each (constraints pb)
        (fun to_con => remove_constraint_with_drivers to_pb (con_name to_con))
  end.

(** *** [mirror_drivers] *)

Definition bone_path (bone : string) : string :=
  "pose.bones[" +++ quoted bone +++ "]".

Definition constraint_path (bone con : string) : string :=
  bone_path bone +++ ".constraints[" +++ quoted con +++ "]".

(** [p[1:] if p.startswith(".") else p] *)
Definition strip_dot (p : string) : string :=
  match p with
  | String c p' => if Ascii.eqb c "." then p' else p
  | EmptyString => p
  end.

(** Lines 280-289: the data path of a variable target. *)
Definition flip_data_path (data_path : string) : outcome string :=
  let flipped :=
    if contains "pose.bones" data_path then
      match nth_error (split ("pose.bones[" +++ dq) data_path) 1 with
      | None => Raised IndexError
      | Some piece =>
          match split dq piece with
          | bone_name :: _ =>
              Returned (replace bone_name (flip_name bone_name) data_path)
          | [] => Raised IndexError
          end
      end
    else Returned data_path in
  match flipped with
  | Raised e => Raised e
  | Returned data_path =>
      Returned (if contains "left" data_path then replace "left" "right" data_path
                else if contains "right" data_path then replace "right" "left" data_path
                else data_path)
  end.

Definition set_id_type (v : string) (t : DriverTarget) : DriverTarget :=
  {| id_type := v; id := id t; rotation_mode := rotation_mode t;
     bone_target := bone_target t; data_path := data_path t;
     transform_type := transform_type t; transform_space := transform_space t |}.

Definition set_id_rotation_bone (i r b : string) (t : DriverTarget) : DriverTarget :=
  {| id_type := id_type t; id := i; rotation_mode := r;
     bone_target := b; data_path := data_path t;
     transform_type := transform_type t; transform_space := transform_space t |}.

Definition set_path_transform (p ty sp : string) (t : DriverTarget) : DriverTarget :=
  {| id_type := id_type t; id := id t; rotation_mode := rotation_mode t;
     bone_target := bone_target t; data_path := p;
     transform_type := ty; transform_space := sp |}.

(** Lines 272-292, on [to_var.targets]; [i] is the loop index and
    [from_targets] holds [from_var.targets[i:]]. *)
Fixpoint copy_targets (to_var_type : string) (from_targets : list DriverTarget)
    (i : nat) : M (list DriverTarget) unit :=
  match from_targets with
  | [] => ret tt
  | from_target :: rest =>
      let target_bone := bone_target from_target in
      let new_target_bone := flip_name target_bone in
      to_targets <- get ;;
      match nth_error to_targets i with
      | None => raise IndexError
      | Some _ =>
          (if String.eqb to_var_type "SINGLE_PROP"
           then modify (update_nth i (set_id_type (id_type from_target)))
           else ret tt) ;;;
          modify (update_nth i (set_id_rotation_bone (id from_target)
                                  (rotation_mode from_target) new_target_bone)) ;;;
          match flip_data_path (data_path from_target) with
          | Raised e => raise e
          | Returned data_path =>
              modify (update_nth i (set_path_transform data_path
                                      (transform_type from_target)
                                      (transform_space from_target))) ;;;
              copy_targets to_var_type rest (S i)
          end
      end
  end.

Definition add_variable (v : DriverVariable) (d : Driver) : Driver :=
  {| d_data_path := d_data_path d; d_array_index := d_array_index d;
     expression := expression d; variables := variables d ++ [v] |}.

Definition set_expression (e : string) (d : Driver) : Driver :=
  {| d_data_path := d_data_path d; d_array_index := d_array_index d;
     expression := e; variables := variables d |}.

(** Lines 268-292 for one variable of the source driver, on [new_d]. *)
Definition copy_variable (from_var : DriverVariable) : M Driver unit :=
  fun new_d =>
    let (to_targets, r) :=
      copy_targets (var_type from_var) (var_targets from_var) 0
        (new_variable_targets (var_type from_var)) in
    (add_variable {| var_type := var_type from_var;
                     var_name := var_name from_var;
                     var_targets := to_targets |} new_d, r).

(** Lines 264-296 on [new_d]. *)
Definition fill_driver (d : Driver) : M Driver unit :=
  for_each (variables d) copy_variable ;;;
  modify (set_expression (expression d)).

(** Lines 235-262: the driver that takes the copy, after the one that was
    in its place has been removed. *)
Definition make_driver (to_bone : string) (from_constraint to_constraint : option Constraint)
    (d : Driver) (ds : list Driver) : list Driver * outcome Driver :=
  match nth_error (split1 "]" (d_data_path d)) 1 with
  | None => (ds, Raised IndexError)
  | Some piece =>
      let data_path_from_bone := strip_dot piece in
      if contains "constraints[" data_path_from_bone then
        match nth_error (split1 "]" data_path_from_bone) 1 with
        | None => (ds, Raised IndexError)
        | Some piece =>
            let data_path_from_constraint := strip_dot piece in
            match from_constraint, to_constraint with
            | Some from_c, Some to_c =>
                let owner := constraint_path to_bone (con_name to_c) in
                if String.eqb (con_type from_c) "ARMATURE"
                   && contains "targets[" data_path_from_constraint
                then
                  match nth_error (split "targets[" data_path_from_constraint) 1 with
                  | Some (String c _) =>
                      match int_of_char c with
                      | None => (ds, Raised ValueError)
                      | Some target_idx =>
                          match nth_error (targets to_c) target_idx with
                          | None => (ds, Raised IndexError)
                          | Some _ =>
                              let owner := owner +++ ".targets["
                                           +++ str target_idx +++ "]" in
                              let ds := driver_remove ds owner "weight" None in
                              match driver_add owner "weight" None with
                              | Some new_d => (ds, Returned new_d)
                              | None => (ds, Raised RuntimeError)
                              end
                          end
                      end
                  | _ => (ds, Raised IndexError)
                  end
                else
                  let ds := driver_remove ds owner data_path_from_constraint None in
                  match driver_add owner data_path_from_constraint None with
                  | Some new_d => (ds, Returned new_d)
                  | None => (ds, Raised RuntimeError)
                  end
            | _, _ => (ds, Raised (AttributeError "type"))
            end
        end
      else
        let owner := bone_path to_bone in
        let ds := driver_remove ds owner data_path_from_bone (Some (d_array_index d)) in
        match driver_add owner data_path_from_bone (Some (d_array_index d)) with
        | Some new_d => (ds, Returned new_d)
        | None =>
            match driver_add owner data_path_from_bone None with
            | Some new_d => (ds, Returned new_d)
            | None => (ds, Raised RuntimeError)
            end
        end
  end.

(** The body of the loop of line 217 for the driver [d]. *)
Definition mirror_driver (from_bone to_bone : string)
    (from_constraint to_constraint : option Constraint) (d : Driver) : M Rig unit :=
  if negb (contains (bone_path from_bone) (d_data_path d)) then ret tt
  else if contains "constraints[" (d_data_path d)
          && match from_constraint with None => true | Some _ => false end
  then ret tt
  else if match from_constraint with
          | Some c => negb (contains (con_name c) (d_data_path d))
          | None => false
          end
  then ret tt
  else
    fun armature =>
      let ds := match drivers armature with Some ds => ds | None => [] end in
      match make_driver to_bone from_constraint to_constraint d ds with
      | (ds, Raised e) => (set_drivers (Some ds) armature, Raised e)
      | (ds, Returned new_d) =>
          let (new_d, r) := fill_driver d new_d in
          (set_drivers (Some (ds ++ [new_d])) armature, r)
      end.

(** The loop takes the drivers the object has when it starts. *)
Definition mirror_drivers (from_bone to_bone : string)
    (from_constraint to_constraint : option Constraint) : M Rig unit :=
  armature <- get ;;
  match drivers armature with
  | None => ret tt
  | Some ds =>
      for_each ds (mirror_driver from_bone to_bone from_constraint to_constraint)
  end.

(** *** [mirror_constraint] *)

(** [x * -1] *)
Definition negated (x : Q) : Q := (x * (-1 # 1))%Q.

Definition negate_second (p : Q * Q) : Q * Q := (fst p, negated (snd p)).

Definition set_con_name (n : string) (c : Constraint) : Constraint :=
  {| con_name := n; con_type := con_type c; action := action c;
     min_x := min_x c; max_x := max_x c; track_axis := track_axis c;
     targets := targets c; influence := influence c |}.

Definition set_min_x (v : Q) (c : Constraint) : Constraint :=
  {| con_name := con_name c; con_type := con_type c; action := action c;
     min_x := v; max_x := max_x c; track_axis := track_axis c;
     targets := targets c; influence := influence c |}.

Definition set_max_x (v : Q) (c : Constraint) : Constraint :=
  {| con_name := con_name c; con_type := con_type c; action := action c;
     min_x := min_x c; max_x := v; track_axis := track_axis c;
     targets := targets c; influence := influence c |}.

Definition set_track_axis (a : string) (c : Constraint) : Constraint :=
  {| con_name := con_name c; con_type := con_type c; action := action c;
     min_x := min_x c; max_x := max_x c; track_axis := a;
     targets := targets c; influence := influence c |}.

Definition add_target (t : ArmatureTarget) (c : Constraint) : Constraint :=
  {| con_name := con_name c; con_type := con_type c; action := action c;
     min_x := min_x c; max_x := max_x c; track_axis := track_axis c;
     targets := targets c ++ [t]; influence := influence c |}.

(** Assignment to the constraint at position [i] of the bone [bone]. *)
Definition update_constraint (bone : string) (i : nat) (f : Constraint -> Constraint)
    (r : Rig) : Rig :=
  set_pose_bones
    (update_pose_bone bone
       (fun b => set_constraints (update_nth i f (constraints b)) b)
       (pose_bones r)) r.

Definition get_constraint (bone : string) (i : nat) (r : Rig) : option Constraint :=
  match get_pose_bone bone (pose_bones r) with
  | Some b => nth_error (constraints b) i
  | None => None
  end.

(** [action.fcurves.find(data_path, index=index)] looks for this channel. *)
Definition at_channel (data_path : string) (index : Z) (c : FCurve) : bool :=
  String.eqb (fc_data_path c) data_path && Z.eqb (fc_array_index c) index.

(** Lines 151-157: find a curve of the channel and remove it until none is
    found; [fuel] bounds the number of rounds. *)
Fixpoint nuke (fuel : nat) (data_path : string) (index : Z) (l : list FCurve)
    : list FCurve :=
  match fuel with
  | O => l
  | S fuel' =>
      match find (at_channel data_path index) l with
      | None => l
      | Some _ => nuke fuel' data_path index (remove_first (at_channel data_path index) l)
      end
  end.

(** Line 170: the test that decides whether the values are negated. *)
Definition flips_value (cur : FCurve) : bool :=
  (contains "location" (fc_data_path cur) && Z.eqb (fc_array_index cur) 0)
  || (contains "rotation" (fc_data_path cur)
      && (Z.eqb (fc_array_index cur) 1 || Z.eqb (fc_array_index cur) 2)).

Definition set_co_handles (c l r : Q * Q) (k : Keyframe) : Keyframe :=
  {| co := c; handle_left := l; handle_right := r;
     interpolation := interpolation k |}.

(** Lines 167-175 for one keyframe of [cur]. *)
Definition mirror_keyframe (cur : FCurve) (kf : Keyframe) : Keyframe :=
  let opp_kf := new_keyframe (fst (co kf)) (snd (co kf)) in
  let opp_kf := copy_attributes_keyframe kf opp_kf ["data_path"] in
  if flips_value cur
  then set_co_handles (negate_second (co opp_kf))
                      (negate_second (handle_left opp_kf))
                      (negate_second (handle_right opp_kf)) opp_kf
  else opp_kf.

(** [action.fcurves.new(data_path, index=index, action_group=group)] *)
Definition new_fcurve (data_path : string) (index : Z) (action_group : string)
    : FCurve :=
  {| fc_data_path := data_path; fc_array_index := index; group := action_group;
     keyframe_points := []; extrapolation := "CONSTANT" |}.

Definition add_keyframes (k : list Keyframe) (c : FCurve) : FCurve :=
  {| fc_data_path := fc_data_path c; fc_array_index := fc_array_index c;
     group := group c; keyframe_points := keyframe_points c ++ k;
     extrapolation := extrapolation c |}.

(** Lines 160-175: the opposite curve of [cur]; the host keeps keyframe
    points by frame, the order in which the source gives them. *)
Definition mirror_curve (pbone opp_pb : string) (cur : FCurve) : FCurve :=
  let opp_data_path := replace pbone opp_pb (fc_data_path cur) in
  let opp_cur := new_fcurve opp_data_path (fc_array_index cur) opp_pb in
  let opp_cur := copy_attributes_fcurve cur opp_cur ["data_path"; "group"] in
  add_keyframes (map (mirror_keyframe cur) (keyframe_points cur)) opp_cur.

(** Lines 147-175 for one curve, on [action.fcurves]. *)
Definition mirror_curve_step (pbone opp_pb : string) (l : list FCurve) (cur : FCurve)
    : list FCurve :=
  let opp_data_path := replace pbone opp_pb (fc_data_path cur) in
  nuke (List.length l) opp_data_path (fc_array_index cur) l
  ++ [mirror_curve pbone opp_pb cur].

(** Lines 143-175 on [action.fcurves]. *)
Definition mirror_action_curves (pbone opp_pb : string) (l : list FCurve)
    : list FCurve :=
  let curves := filter (fun cur => contains pbone (fc_data_path cur)) l in
  fold_left (mirror_curve_step pbone opp_pb) curves l.

Definition set_fcurves (l : list FCurve) (a : Action) : Action :=
  {| action_name := action_name a; fcurves := l |}.

Fixpoint update_action (key : string) (f : Action -> Action) (l : list Action)
    : list Action :=
  match l with
  | [] => []
  | a :: l' => if String.eqb (action_name a) key then f a :: l'
               else a :: update_action key f l'
  end.

(** Lines 138-196: what is done for the type of the constraint; [i] is the
    position of [opp_c] among the constraints of [opp_pb]. *)
Definition mirror_by_type (pbone opp_pb : string) (con : Constraint) (i : nat)
    : M Rig unit :=
  if String.eqb (con_type con) "ACTION" && negb (String.eqb pbone opp_pb) then
    match action con with
    | None => raise (AttributeError "fcurves")
    | Some a =>
        armature <- get ;;
        match find (fun x => String.eqb (action_name x) a) (actions armature) with
        | None => raise ReferenceError
        | Some _ =>
            modify (fun r => set_actions
              (update_action a
                 (fun x => set_fcurves (mirror_action_curves pbone opp_pb (fcurves x)) x)
                 (actions r)) r)
        end
    end
  else if String.eqb (con_type con) "LIMIT_LOCATION" then
    modify (update_constraint opp_pb i (set_min_x (negated (max_x con)))) ;;;
    modify (update_constraint opp_pb i (set_max_x (negated (min_x con))))
  else if String.eqb (con_type con) "DAMPED_TRACK" then
    armature <- get ;;
    match get_constraint opp_pb i armature with
    | None => raise ReferenceError
    | Some opp_c =>
        if String.eqb (track_axis opp_c) "TRACK_NEGATIVE_X"
           || String.eqb (track_axis opp_c) "TRACK_X"
        then
          if String.eqb (track_axis con) "TRACK_NEGATIVE_X"
          then modify (update_constraint opp_pb i (set_track_axis "TRACK_X"))
          else if String.eqb (track_axis con) "TRACK_X"
          then modify (update_constraint opp_pb i (set_track_axis "TRACK_NEGATIVE_X"))
          else raise (KeyError (track_axis con))
        else ret tt
    end
  else if String.eqb (con_type con) "ARMATURE" then
    for_each (targets con)
      (fun from_tar =>
         modify (update_constraint opp_pb i
                   (add_target {| target := target from_tar;
                                  subtarget := flip_name (subtarget from_tar);
                                  weight := weight from_tar |})))
  else ret tt.

Definition mirror_constraint (pbone : string) (con : Constraint) : M Rig unit :=
  let flipped_con_name := flip_name (con_name con) in
  let flipped_bone_name := flip_name pbone in
  armature <- get ;;
  match get_pose_bone flipped_bone_name (pose_bones armature) with
  | None => raise (AttributeError "constraints")
  | Some opp =>
      let opp_pb := pb_name opp in
      if String.eqb pbone opp_pb then ret tt
      else
        let found :=
          match find_or_create_constraint (constraints opp) (con_type con) (con_name con) with
          | Some r => Some r
          | None => find_or_create_constraint (constraints opp) (con_type con)
                      flipped_con_name
          end in
        match found with
        | None => raise (AttributeError "name")
        | Some (before, opp_c, after) =>
            let i := List.length before in
            let opp_c := copy_attributes_constraint con opp_c ["name"; "subtarget"] in
            let opp_c := set_con_name flipped_con_name opp_c in
            modify (fun r => set_pose_bones
                      (update_pose_bone opp_pb
                         (set_constraints (before ++ opp_c :: after)) (pose_bones r)) r) ;;;
            mirror_by_type pbone opp_pb con i ;;;
            armature <- get ;;
            mirror_drivers pbone opp_pb (Some con) (get_constraint opp_pb i armature)
        end
  end.

(** *** [POSE_OT_Symmetrize.execute] *)

(** Lines 88-96 for the pair of [from_pb] and [to_pb]. *)
Definition mirror_collections (from_pb to_pb : string) : M Rig unit :=
  rig <- get ;;
  match get_pose_bone from_pb (pose_bones rig) with
  | None => raise ReferenceError
  | Some from_bone =>
      let assigned :=
        fold_left (fun acc from_coll =>
                     let to_coll :=
                       if mem (flip_name from_coll) (data_collections rig)
                       then flip_name from_coll else from_coll in
                     if mem to_coll acc then acc else acc ++ [to_coll])
                  (collections from_bone) [] in
      modify (fun r => set_pose_bones
                (update_pose_bone to_pb (set_collections assigned) (pose_bones r)) r)
  end.

(** Lines 79-96 for one item of [bone_map]. *)
Definition mirror_pair (pair : string * string) : M Rig unit :=
  let (from_pb, to_pb) := pair in
  mirror_drivers from_pb to_pb None None ;;;
  rig <- get ;;
  match get_pose_bone from_pb (pose_bones rig) with
  | None => raise ReferenceError
  | Some from_bone =>
      for_each (constraints from_bone) (mirror_constraint from_pb) ;;;
      mirror_collections from_pb to_pb
  end.

(** Lines 72-75 *)
Definition select_edit_bone (pb : string) : M Rig unit :=
  rig <- get ;;
  match get_pose_bone pb (pose_bones rig) with
  | None => raise (KeyError pb)
  | Some _ =>
      modify (fun r => set_pose_bones
                (update_pose_bone pb (set_edit_flags false true) (pose_bones r)) r)
  end.

Definition execute : M Rig OperatorReturn :=
  bone_map <- get_symmetrize_bone_mapping ;;
  match bone_map with
  | ReturnedCancelled => ret CANCELLED
  | ReturnedNone => raise (AttributeError "values")
  | ReturnedMap bone_map =>
      for_each (map snd bone_map) remove_constraints_of ;;;
      modify (set_mode EDIT) ;;;
      for_each (map fst bone_map) select_edit_bone ;;;
      modify armature_symmetrize ;;;
      modify (set_mode POSE) ;;;
      for_each bone_map mirror_pair ;;;
      ret FINISHED
  end.

End Operator.


(** *** Facts about the bone mapping *)

Lemma get_pose_bone_name (key : string) (l : list PoseBone) (b : PoseBone) :
  get_pose_bone key l = Some b -> pb_name b = key.
Proof.
  unfold get_pose_bone. intros H. apply find_some in H.
  now apply String.eqb_eq.
Qed.

Lemma mem_In (x : string) (l : list string) : mem x l = true <-> In x l.
Proof.
  unfold mem. rewrite existsb_exists. split.
  - intros (y & Hy & E). apply String.eqb_eq in E. now subst.
  - intros H. exists x. split; [exact H | apply String.eqb_refl].
Qed.

Section MappingFacts.

Context {host : Host}.

(** A selected bone over which the loop of the mapping passes without
    returning a dictionary: its name cannot be flipped, or no bone has the
    flipped name. *)
Definition passed_over (rig : Rig) (pb : string) : Prop :=
  flip_name pb = pb \/ get_pose_bone (flip_name pb) (pose_bones rig) = None.

(** A selected bone whose flipped name names a bone that is selected too. *)
Definition on_both_sides (rig : Rig) (selected : list string) (pb : string) : Prop :=
  flip_name pb <> pb /\
  exists opp, get_pose_bone (flip_name pb) (pose_bones rig) = Some opp
              /\ In (pb_name opp) selected.

(** The dictionary, when one is returned, holds one pair: the loop
    returns it as soon as it has put a pair in. *)
Lemma mapping_loop_one_pair (selected rest : list string) (rig rig' : Rig)
    (bone_map : list (string * string)) :
  mapping_loop selected rest [] rig = (rig', Returned (ReturnedMap bone_map)) ->
  exists pb opp, bone_map = [(pb, opp)].
Proof.
  revert rig. induction rest as [|pb rest IH]; intros rig; simpl.
  - discriminate.
  - destruct (String.eqb (flip_name pb) pb); [apply IH|].
    unfold bind, get, modify, ret.
    destruct (get_pose_bone (flip_name pb) (pose_bones rig)) as [opp|]; simpl;
      [|apply IH].
    destruct (mem (pb_name opp) selected); simpl; [discriminate|].
    destruct (String.eqb (pb_name opp) pb); simpl; [apply IH|].
    intros H. injection H as _ <-. now exists pb, (pb_name opp).
Qed.

(** When the loop passes over every selected bone, the method returns
    nothing. *)
Lemma mapping_loop_none (selected rest : list string) (rig : Rig)
    (bone_map : list (string * string)) :
  (forall pb, In pb rest -> passed_over rig pb) ->
  mapping_loop selected rest bone_map rig = (rig, Returned ReturnedNone).
Proof.
  induction rest as [|pb rest IH]; intros H; simpl; [reflexivity|].
  destruct (String.eqb (flip_name pb) pb) eqn:E.
  - apply IH. intros p Hp. apply H. now right.
  - apply String.eqb_neq in E. destruct (H pb) as [F | G]; [now left | tauto |].
    unfold bind, get. rewrite G. simpl. apply IH. intros p Hp. apply H. now right.
Qed.

(** When the first selected bone over which the loop does not pass is
    selected on both sides, the method reports the error and returns
    [{'CANCELLED'}]; the state is the state at entry with the report. *)
Lemma mapping_loop_cancels (selected before after : list string) (pb : string)
    (rig : Rig) (bone_map : list (string * string)) :
  (forall p, In p before -> passed_over rig p) ->
  on_both_sides rig selected pb ->
  mapping_loop selected (before ++ pb :: after) bone_map rig
  = (report "ERROR" (both_sides_message pb) rig, Returned ReturnedCancelled).
Proof.
  intros Hbefore (Hne & opp & Hopp & Hsel).
  induction before as [|p before IH]; simpl.
  - apply String.eqb_neq in Hne. rewrite Hne.
    unfold bind, get, modify, ret. rewrite Hopp. simpl.
    apply mem_In in Hsel. now rewrite Hsel.
  - destruct (String.eqb (flip_name p) p) eqn:E.
    + apply IH. intros q Hq. apply Hbefore. now right.
    + apply String.eqb_neq in E.
      destruct (Hbefore p) as [F | G]; [now left | tauto |].
      unfold bind, get. rewrite G. simpl.
      apply IH. intros q Hq. apply Hbefore. now right.
Qed.

(** When the loop passes over every selected bone, [execute] asks nothing
    for its [values] and raises. *)
Lemma execute_raises_when_nothing_maps (rig : Rig) :
  (forall pb, In pb (selected_pose_bones rig) -> passed_over rig pb) ->
  execute rig = (rig, Raised (AttributeError "values")).
Proof.
  intros H. unfold execute, get_symmetrize_bone_mapping, bind, get.
  now rewrite (mapping_loop_none _ _ rig [] H).
Qed.

(** When the loop of the mapping comes to a selected bone whose flipped
    name names a bone that is selected too, having passed over every
    selected bone before it, [execute] reports an error and returns
    [{'CANCELLED'}], and the rig is as it was: bones, constraints,
    drivers, actions and selection are those at entry. *)
Lemma both_sides_selected_cancels (rig : Rig) (before after : list string)
    (pb : string) :
  selected_pose_bones rig = before ++ pb :: after ->
  (forall p, In p before -> passed_over rig p) ->
  on_both_sides rig (selected_pose_bones rig) pb ->
  let rig' := fst (execute rig) in
  snd (execute rig) = Returned CANCELLED
  /\ reports rig' = reports rig ++ [("ERROR", both_sides_message pb)]
  /\ pose_bones rig' = pose_bones rig
  /\ drivers rig' = drivers rig
  /\ actions rig' = actions rig
  /\ selected_pose_bones rig' = selected_pose_bones rig
  /\ mode rig' = mode rig.
Proof.
  intros Hsel Hbefore Hboth.
  assert (E : execute rig
              = (report "ERROR" (both_sides_message pb) rig, Returned CANCELLED)).
  { unfold execute, get_symmetrize_bone_mapping, bind, get.
    rewrite Hsel at 2.
    now rewrite (mapping_loop_cancels _ before after pb rig [] Hbefore Hboth). }
  cbv zeta. rewrite E. simpl. repeat split; reflexivity.
Qed.

End MappingFacts.

(** *** Facts about collections of bones and constraints *)

Lemma get_pose_bone_update (key : string) (f : PoseBone -> PoseBone)
    (l : list PoseBone) :
  (forall b, pb_name (f b) = pb_name b) ->
  get_pose_bone key (update_pose_bone key f l) = option_map f (get_pose_bone key l).
Proof.
  intros Hf. unfold get_pose_bone. induction l as [|b l IH]; simpl; [reflexivity|].
  destruct (String.eqb (pb_name b) key) eqn:E; simpl.
  - now rewrite Hf, E.
  - now rewrite E.
Qed.

Lemma get_pose_bone_update_other (key other : string) (f : PoseBone -> PoseBone)
    (l : list PoseBone) :
  (forall b, pb_name (f b) = pb_name b) -> other <> key ->
  get_pose_bone other (update_pose_bone key f l) = get_pose_bone other l.
Proof.
  intros Hf Hne. unfold get_pose_bone. induction l as [|b l IH]; simpl; [reflexivity|].
  destruct (String.eqb (pb_name b) key) eqn:E; simpl.
  - rewrite Hf. apply String.eqb_eq in E.
    assert (N : String.eqb (pb_name b) other = false)
      by (apply String.eqb_neq; congruence).
    now rewrite N.
  - destruct (String.eqb (pb_name b) other); [reflexivity | exact IH].
Qed.

Lemma update_pose_bone_twice (key : string) (f g : PoseBone -> PoseBone)
    (l : list PoseBone) :
  (forall b, pb_name (f b) = pb_name b) ->
  update_pose_bone key g (update_pose_bone key f l)
  = update_pose_bone key (fun b => g (f b)) l.
Proof.
  intros Hf. induction l as [|b l IH]; simpl; [reflexivity|].
  destruct (String.eqb (pb_name b) key) eqn:E; simpl.
  - now rewrite Hf, E.
  - now rewrite E, IH.
Qed.


Lemma nth_error_update_nth {A} (i : nat) (f : A -> A) (l : list A) :
  nth_error (update_nth i f l) i = option_map f (nth_error l i).
Proof.
  revert i. induction l as [|x l IH]; intros [|i]; simpl; auto.
Qed.

Lemma nth_error_middle {A} (before after : list A) (x : A) :
  nth_error (before ++ x :: after) (List.length before) = Some x.
Proof. induction before; simpl; auto. Qed.

Lemma filter_twice {A} (p q : A -> bool) (l : list A) :
  filter p (filter q l) = filter (fun x => q x && p x) l.
Proof.
  induction l as [|x l IH]; simpl; [reflexivity|].
  destruct (q x); simpl; [destruct (p x); now rewrite IH | exact IH].
Qed.


(** [x * -1] is the opposite of [x]. *)
Lemma negated_opp (x : Q) : negated x = Qopp x.
Proof.
  destruct x as [n d]. unfold negated, Qmult, Qopp. simpl.
  f_equal; [lia | apply Pos.mul_1_r].
Qed.

(** *** Removal of the constraints of the target bone *)





(** *** Mirroring a constraint *)

(** A loop keeps what each round keeps. *)
Lemma for_each_keeps {S A T} (proj : S -> T) (xs : list A) (body : A -> M S unit) :
  (forall x s, proj (fst (body x s)) = proj s) ->
  forall s, proj (fst (for_each xs body s)) = proj s.
Proof.
  intros Hbody. induction xs as [|x xs IH]; intros s; simpl; [reflexivity|].
  unfold bind. specialize (Hbody x s).
  destruct (body x s) as [s' [[]|e]]; simpl in *; [now rewrite IH | exact Hbody].
Qed.

Section ConstraintFacts.

Context {host : Host}.

(** [mirror_drivers] writes to the drivers only. *)
Lemma mirror_driver_keeps (from_bone to_bone : string)
    (from_constraint to_constraint : option Constraint) (d : Driver) (r : Rig) :
  let r' := fst (mirror_driver from_bone to_bone from_constraint to_constraint d r) in
  pose_bones r' = pose_bones r /\ actions r' = actions r.
Proof.
  unfold mirror_driver.
  destruct (negb (contains (bone_path from_bone) (d_data_path d))); [now split|].
  destruct (contains "constraints[" (d_data_path d)
            && match from_constraint with None => true | Some _ => false end);
    [now split|].
  destruct (match from_constraint with
            | Some c => negb (contains (con_name c) (d_data_path d))
            | None => false end); [now split|].
  destruct (make_driver _ _ _ _ _) as [ds [new_d|e]]; [|now split].
  destruct (fill_driver d new_d) as [nd out]. now split.
Qed.

Lemma mirror_drivers_keeps (from_bone to_bone : string)
    (from_constraint to_constraint : option Constraint) (r : Rig) :
  let r' := fst (mirror_drivers from_bone to_bone from_constraint to_constraint r) in
  pose_bones r' = pose_bones r /\ actions r' = actions r.
Proof.
  unfold mirror_drivers, bind, get. destruct (drivers r) as [ds|]; [|now split].
  cbv zeta. split.
  - apply (for_each_keeps pose_bones). intros d s.
    apply (mirror_driver_keeps from_bone to_bone from_constraint to_constraint d s).
  - apply (for_each_keeps actions). intros d s.
    apply (mirror_driver_keeps from_bone to_bone from_constraint to_constraint d s).
Qed.

(** What [mirror_by_type] does for a Limit Location constraint. *)
Lemma mirror_by_type_limit_location (pbone opp_pb : string) (con : Constraint)
    (i : nat) (r : Rig) :
  con_type con = "LIMIT_LOCATION" ->
  mirror_by_type pbone opp_pb con i r
  = (update_constraint opp_pb i (set_max_x (negated (min_x con)))
       (update_constraint opp_pb i (set_min_x (negated (max_x con))) r),
     Returned tt).
Proof. intros H. unfold mirror_by_type. rewrite H. reflexivity. Qed.

Lemma get_constraint_update (bone : string) (i : nat) (f : Constraint -> Constraint)
    (r : Rig) :
  get_constraint bone i (update_constraint bone i f r)
  = option_map f (get_constraint bone i r).
Proof.
  unfold get_constraint, update_constraint. simpl.
  rewrite get_pose_bone_update by reflexivity.
  destruct (get_pose_bone bone (pose_bones r)); simpl; [|reflexivity].
  apply nth_error_update_nth.
Qed.

(** The constraint that [mirror_constraint] takes for [opp_c]: the answer
    of [find_or_create_constraint] for the name of the source or, when
    there is none, for the flipped name. *)
Definition opposite_constraint (opp : PoseBone) (con : Constraint)
    : option (list Constraint * Constraint * list Constraint) :=
  match find_or_create_constraint (constraints opp) (con_type con) (con_name con) with
  | Some r => Some r
  | None => find_or_create_constraint (constraints opp) (con_type con)
              (flip_name (con_name con))
  end.

(** C5: when [mirror_constraint] mirrors a Limit Location constraint onto
    the opposite bone, the opposite constraint ends with the negated
    maximum of the source as its minimum X and the negated minimum of the
    source as its maximum X, under the flipped name. *)
Theorem limit_location_x_swapped_negated (rig : Rig) (pbone : string)
    (con : Constraint) (opp : PoseBone)
    (before after : list Constraint) (opp_c : Constraint) :
  con_type con = "LIMIT_LOCATION" ->
  flip_name pbone <> pbone ->
  get_pose_bone (flip_name pbone) (pose_bones rig) = Some opp ->
  opposite_constraint opp con = Some (before, opp_c, after) ->
  exists mirrored,
    get_constraint (flip_name pbone) (List.length before)
      (fst (mirror_constraint pbone con rig)) = Some mirrored
    /\ min_x mirrored = Qopp (max_x con)
    /\ max_x mirrored = Qopp (min_x con)
    /\ con_name mirrored = flip_name (con_name con).
Proof.
  intros Htype Hflip Hopp Hfound.
  pose proof (get_pose_bone_name _ _ _ Hopp) as Hname.
  unfold mirror_constraint, bind, get. rewrite Hopp, Hname.
  assert (N : String.eqb pbone (flip_name pbone) = false)
    by (apply String.eqb_neq; congruence).
  rewrite N. unfold opposite_constraint in Hfound. rewrite Hfound.
  unfold modify at 1. cbv beta iota.
  rewrite mirror_by_type_limit_location by exact Htype. cbv beta iota.
  match goal with
  | |- context [mirror_drivers ?a ?b ?c ?d ?s] =>
      pose proof (mirror_drivers_keeps a b c d s) as K; cbv zeta in K;
      destruct K as [K _];
      destruct (mirror_drivers a b c d s) as [r' out] eqn:D
  end.
  simpl in K. simpl fst. unfold get_constraint. rewrite K.
  rewrite !update_pose_bone_twice by reflexivity.
  rewrite get_pose_bone_update by reflexivity. rewrite Hopp. simpl.
  rewrite !nth_error_update_nth, nth_error_middle. simpl.
  eexists. split; [reflexivity|]. simpl.
  rewrite !negated_opp. repeat split; reflexivity.
Qed.

End ConstraintFacts.

(** *** Mirroring the curves of an action *)

Lemma remove_first_length {A} (p : A -> bool) (l : list A) (x : A) :
  find p l = Some x -> S (List.length (remove_first p l)) = List.length l.
Proof.
  induction l as [|y l IH]; simpl; [discriminate|].
  destruct (p y); [reflexivity | intros H; simpl; now rewrite IH].
Qed.

Lemma filter_remove_first {A} (p : A -> bool) (l : list A) :
  filter (fun x => negb (p x)) (remove_first p l) = filter (fun x => negb (p x)) l.
Proof.
  induction l as [|y l IH]; simpl; [reflexivity|].
  destruct (p y) eqn:E; simpl; [reflexivity | now rewrite E, IH].
Qed.

Lemma find_none_filter {A} (p : A -> bool) (l : list A) :
  find p l = None -> filter (fun x => negb (p x)) l = l.
Proof.
  induction l as [|y l IH]; simpl; [reflexivity|].
  destruct (p y); [discriminate | intros H; simpl; now rewrite IH].
Qed.

(** With a round for every curve of the collection, the loop of lines
    151-157 ends because no curve of the channel is left. *)
Lemma nuke_filter (fuel : nat) (data_path : string) (index : Z) (l : list FCurve) :
  (List.length l <= fuel)%nat ->
  nuke fuel data_path index l
  = filter (fun c => negb (at_channel data_path index c)) l.
Proof.
  revert l. induction fuel as [|fuel IH]; intros l Hl.
  - destruct l; [reflexivity | simpl in Hl; lia].
  - simpl. destruct (find (at_channel data_path index) l) as [x|] eqn:F.
    + rewrite IH.
      * apply filter_remove_first.
      * apply remove_first_length in F. lia.
    + symmetry. now apply find_none_filter.
Qed.



Section ActionFacts.

Context {host : Host}.

(** What the two calls of [utils.copy_attributes] in the loop over the
    curves are taken to do: on an F-curve, with [data_path] and [group]
    skipped, the data path and the keyframe points of the receiver stay and
    the array index is the one of the source; on a keyframe, the point and
    its handles are those of the source. *)
Definition copy_attributes_copies : Prop :=
  (forall src dst,
     let c := copy_attributes_fcurve src dst ["data_path"; "group"] in
     fc_data_path c = fc_data_path dst
     /\ fc_array_index c = fc_array_index src
     /\ keyframe_points c = keyframe_points dst)
  /\ (forall src dst,
        let k := copy_attributes_keyframe src dst ["data_path"] in
        co k = co src /\ handle_left k = handle_left src
        /\ handle_right k = handle_right src).

(** The channel on which the opposite of [cur] is put. *)
Definition opposite_channel (pbone opp_pb : string) (cur : FCurve) : FCurve -> bool :=
  at_channel (replace pbone opp_pb (fc_data_path cur)) (fc_array_index cur).

Lemma mirror_curve_channel (pbone opp_pb : string) (cur : FCurve) :
  copy_attributes_copies ->
  fc_data_path (mirror_curve pbone opp_pb cur) = replace pbone opp_pb (fc_data_path cur)
  /\ fc_array_index (mirror_curve pbone opp_pb cur) = fc_array_index cur
  /\ keyframe_points (mirror_curve pbone opp_pb cur)
     = map (mirror_keyframe cur) (keyframe_points cur).
Proof.
  intros [Hfc _]. unfold mirror_curve. simpl.
  destruct (Hfc cur (new_fcurve (replace pbone opp_pb (fc_data_path cur))
                       (fc_array_index cur) opp_pb)) as (H1 & H2 & H3).
  cbv zeta in *. rewrite H1, H2, H3. simpl. auto.
Qed.

Lemma mirror_curve_on_channel (pbone opp_pb : string) (cur : FCurve) :
  copy_attributes_copies ->
  opposite_channel pbone opp_pb cur (mirror_curve pbone opp_pb cur) = true.
Proof.
  intros H. destruct (mirror_curve_channel pbone opp_pb cur H) as (H1 & H2 & _).
  unfold opposite_channel, at_channel. rewrite H1, H2.
  now rewrite String.eqb_refl, Z.eqb_refl.
Qed.






End ActionFacts.

(** *** Copying the variables of a driver *)

Lemma split_go_cons (sep : string) (maxsplit : option nat) (skip : nat)
    (acc s : string) :
  exists piece rest, split_go sep maxsplit skip acc s = piece :: rest.
Proof.
  revert maxsplit skip acc. induction s as [|c s IH]; intros maxsplit skip acc; simpl.
  - now exists acc, [].
  - destruct skip as [|k]; [|apply IH].
    destruct maxsplit as [[|n]|].
    + now eexists; eexists.
    + destruct (startswith sep (String c s)); [now eexists; eexists | apply IH].
    + destruct (startswith sep (String c s)); [now eexists; eexists | apply IH].
Qed.

(** A string that contains the separator splits in two pieces or more. *)
Lemma split_go_two (sep acc s : string) :
  sep <> EmptyString -> contains sep s = true ->
  exists first second rest, split_go sep None 0 acc s = first :: second :: rest.
Proof.
  intros Hsep. revert acc. induction s as [|c s IH]; intros acc; simpl.
  - destruct sep; [congruence | discriminate].
  - destruct (startswith sep (String c s)) eqn:E.
    + intros _.
      match goal with
      | |- context [split_go ?a ?b ?k ?d s] =>
          destruct (split_go_cons a b k d s) as (p & r & ->)
      end.
      now exists acc, p, r.
    + intros H. apply IH. exact H.
Qed.

Lemma update_nth_length {A} (i : nat) (f : A -> A) (l : list A) :
  List.length (update_nth i f l) = List.length l.
Proof. revert i. induction l as [|x l IH]; intros [|i]; simpl; auto. Qed.

Lemma update_nth_other {A} (i k : nat) (f : A -> A) (l : list A) :
  k <> i -> nth_error (update_nth i f l) k = nth_error l k.
Proof.
  revert i k. induction l as [|x l IH]; intros [|i] [|k] H; simpl; auto.
  congruence.
Qed.

Lemma update_nth_twice {A} (i : nat) (f g : A -> A) (l : list A) :
  update_nth i g (update_nth i f l) = update_nth i (fun x => g (f x)) l.
Proof.
  revert i. induction l as [|x l IH]; intros [|i]; simpl; auto.
  now rewrite IH.
Qed.

Section DriverFacts.

Context {host : Host}.

(** The name of the pose bone that a data path addresses: what stands
    between the first [pose.bones] with an opening bracket and double quote
    and the double quote that follows. *)
Definition first_pose_bone (data_path : string) : string :=
  match nth_error (split ("pose.bones[" +++ dq) data_path) 1 with
  | Some piece => match split dq piece with
                  | bone_name :: _ => bone_name
                  | [] => EmptyString
                  end
  | None => EmptyString
  end.

(** The path with that name replaced by its flipped form. *)
Definition with_bone_flipped (data_path : string) : string :=
  if contains "pose.bones" data_path
  then replace (first_pose_bone data_path) (flip_name (first_pose_bone data_path))
         data_path
  else data_path.

(** The path with [left] replaced by [right] or, when it has no [left],
    with [right] replaced by [left]. *)
Definition with_side_flipped (data_path : string) : string :=
  if contains "left" data_path then replace "left" "right" data_path
  else if contains "right" data_path then replace "right" "left" data_path
  else data_path.

(** A data path that names pose bones does so with a quoted name. *)
Definition addresses_bones_by_name (data_path : string) : Prop :=
  contains "pose.bones" data_path = true ->
  contains ("pose.bones[" +++ dq) data_path = true.

Lemma flip_data_path_returns (data_path : string) :
  addresses_bones_by_name data_path ->
  flip_data_path data_path
  = Returned (with_side_flipped (with_bone_flipped data_path)).
Proof.
  intros Hwf. unfold flip_data_path, with_bone_flipped, first_pose_bone.
  destruct (contains "pose.bones" data_path) eqn:E; [|reflexivity].
  destruct (split_go_two ("pose.bones[" +++ dq) EmptyString data_path)
    as (p0 & p1 & r & Hs); [discriminate | now apply Hwf |].
  unfold split at 1 3 5. rewrite Hs. simpl nth_error.
  destruct (split_go_cons dq None 0 EmptyString p1) as (b & r' & Hb).
  unfold split. rewrite Hb. reflexivity.
Qed.

(** What lines 273-292 make of the target [to_target] of the copy, from
    the target [from_target] of the source. *)
Definition copied_target (to_var_type : string) (from_target to_target : DriverTarget)
    : DriverTarget :=
  {| id_type := if String.eqb to_var_type "SINGLE_PROP"
                then id_type from_target else id_type to_target;
     id := id from_target;
     rotation_mode := rotation_mode from_target;
     bone_target := flip_name (bone_target from_target);
     data_path := with_side_flipped (with_bone_flipped (data_path from_target));
     transform_type := transform_type from_target;
     transform_space := transform_space from_target |}.

Lemma copy_targets_returns (to_var_type : string) (from_targets : list DriverTarget) :
  forall (i : nat) (to_targets : list DriverTarget),
  (i + List.length from_targets <= List.length to_targets)%nat ->
  (forall t, In t from_targets -> addresses_bones_by_name (data_path t)) ->
  exists result,
    copy_targets to_var_type from_targets i to_targets = (result, Returned tt)
    /\ List.length result = List.length to_targets
    /\ (forall k, (k < i)%nat -> nth_error result k = nth_error to_targets k)
    /\ (forall k from_target,
          nth_error from_targets k = Some from_target ->
          exists to_target,
            nth_error to_targets (i + k) = Some to_target
            /\ nth_error result (i + k)
               = Some (copied_target to_var_type from_target to_target)).
Proof.
  induction from_targets as [|t rest IH]; intros i to_targets Hlen Hwf.
  - exists to_targets. simpl. repeat split; auto.
    intros [|k] ft H; discriminate.
  - simpl in Hlen. simpl copy_targets. unfold bind, get, raise, modify, ret.
    destruct (nth_error to_targets i) as [t0|] eqn:N.
    2:{ apply nth_error_None in N. lia. }
    rewrite (flip_data_path_returns (data_path t)) by (apply Hwf; now left).
    set (l3 := update_nth i (fun x => copied_target to_var_type t x) to_targets).
    assert (E : forall l,
      l = (if String.eqb to_var_type "SINGLE_PROP"
           then update_nth i (set_id_type (id_type t)) to_targets else to_targets) ->
      update_nth i (set_path_transform
                      (with_side_flipped (with_bone_flipped (data_path t)))
                      (transform_type t) (transform_space t))
        (update_nth i (set_id_rotation_bone (id t) (rotation_mode t)
                         (flip_name (bone_target t))) l) = l3).
    { intros l ->. unfold l3. destruct (String.eqb to_var_type "SINGLE_PROP") eqn:S.
      - rewrite !update_nth_twice. clear - S. revert i.
        induction to_targets as [|x l IHl]; intros [|i]; simpl; auto.
        + unfold copied_target. rewrite S. reflexivity.
        + now rewrite IHl.
      - rewrite !update_nth_twice. clear - S. revert i.
        induction to_targets as [|x l IHl]; intros [|i]; simpl; auto.
        + unfold copied_target. rewrite S. reflexivity.
        + now rewrite IHl. }
    destruct (IH (S i) l3) as (result & R1 & R2 & R3 & R4).
    + unfold l3. rewrite update_nth_length. lia.
    + intros x Hx. apply Hwf. now right.
    + exists result. split.
      * destruct (String.eqb to_var_type "SINGLE_PROP"); simpl;
          rewrite (E _ eq_refl); exact R1.
      * split; [unfold l3 in R2; now rewrite update_nth_length in R2|].
        split.
        -- intros k Hk. rewrite R3 by lia. unfold l3.
           apply update_nth_other. lia.
        -- intros [|k] ft Hft; simpl in Hft.
           ++ injection Hft as <-. exists t0. rewrite Nat.add_0_r. split; [exact N|].
              rewrite R3 by lia. unfold l3.
              now rewrite nth_error_update_nth, N.
           ++ destruct (R4 k ft Hft) as (tt0 & T1 & T2).
              exists tt0. replace (i + S k)%nat with (S i + k)%nat by lia.
              split; [|exact T2].
              rewrite <- T1. unfold l3. symmetry. apply update_nth_other. lia.
Qed.

(** The variables of the source driver can be copied: the host gives a
    fresh variable of the type as many targets as the source has or more,
    and the data paths of the targets address bones by name. *)
Definition can_be_copied (from_var : DriverVariable) : Prop :=
  (List.length (var_targets from_var)
   <= List.length (new_variable_targets (var_type from_var)))%nat
  /\ forall t, In t (var_targets from_var) -> addresses_bones_by_name (data_path t).

(** A variable of the copy against the variable of the source: same type
    and name, and for each target of the source a target at the same
    position with the flipped bone and the rewritten data path. *)
Definition mirrors_variable (from_var to_var : DriverVariable) : Prop :=
  var_type to_var = var_type from_var
  /\ var_name to_var = var_name from_var
  /\ forall i from_target,
       nth_error (var_targets from_var) i = Some from_target ->
       exists to_target,
         nth_error (var_targets to_var) i = Some to_target
         /\ bone_target to_target = flip_name (bone_target from_target)
         /\ data_path to_target
            = with_side_flipped (with_bone_flipped (data_path from_target)).

Definition add_variables (vs : list DriverVariable) (d : Driver) : Driver :=
  {| d_data_path := d_data_path d; d_array_index := d_array_index d;
     expression := expression d; variables := variables d ++ vs |}.

Lemma copy_variable_returns (from_var : DriverVariable) (new_d : Driver) :
  can_be_copied from_var ->
  exists to_var,
    copy_variable from_var new_d = (add_variable to_var new_d, Returned tt)
    /\ mirrors_variable from_var to_var.
Proof.
  intros [Hlen Hwf]. unfold copy_variable.
  destruct (copy_targets_returns (var_type from_var) (var_targets from_var) 0
              (new_variable_targets (var_type from_var)) Hlen Hwf)
    as (result & R1 & _ & _ & R4).
  rewrite R1. eexists. split; [reflexivity|].
  repeat split. simpl. intros i ft Hft.
  destruct (R4 i ft Hft) as (t0 & _ & T). simpl in T.
  eexists. split; [exact T|]. split; reflexivity.
Qed.

Lemma copy_variables_return (vars : list DriverVariable) (new_d : Driver) :
  Forall can_be_copied vars ->
  exists copies,
    for_each vars copy_variable new_d = (add_variables copies new_d, Returned tt)
    /\ Forall2 mirrors_variable vars copies.
Proof.
  revert new_d. induction vars as [|v vars IH]; intros new_d Hall.
  - exists []. split; [|constructor]. simpl. unfold ret, add_variables.
    rewrite app_nil_r. now destruct new_d.
  - inversion Hall as [|? ? Hv Hvars]; subst.
    destruct (copy_variable_returns v new_d Hv) as (to_var & E & Hm).
    destruct (IH (add_variable to_var new_d) Hvars) as (copies & E' & Hc).
    exists (to_var :: copies). split; [|now constructor].
    simpl. unfold bind. rewrite E, E'. unfold add_variables, add_variable. simpl.
    now rewrite <- app_assoc.
Qed.

(** C7: the variables that [mirror_drivers] copies onto the new driver
    come one for each variable of the source, in order; each target of a
    copy has for [bone_target] the flipped name of the source's, and for
    data path the source's with the name of the pose bone it addresses
    replaced by the flipped name and then [left] replaced by [right] or,
    without a [left], [right] by [left]; the expression is the source's. *)
Theorem driver_targets_flipped (d new_d : Driver) :
  Forall can_be_copied (variables d) ->
  exists copies,
    fill_driver d new_d
    = (set_expression (expression d) (add_variables copies new_d), Returned tt)
    /\ Forall2
         (fun from_var to_var =>
            var_type to_var = var_type from_var
            /\ var_name to_var = var_name from_var
            /\ forall i from_target,
                 nth_error (var_targets from_var) i = Some from_target ->
                 exists to_target,
                   nth_error (var_targets to_var) i = Some to_target
                   /\ bone_target to_target = flip_name (bone_target from_target)
                   /\ data_path to_target
                      = (let flipped :=
                           if contains "pose.bones" (data_path from_target)
                           then replace (first_pose_bone (data_path from_target))
                                  (flip_name (first_pose_bone (data_path from_target)))
                                  (data_path from_target)
                           else data_path from_target in
                         if contains "left" flipped then replace "left" "right" flipped
                         else if contains "right" flipped
                              then replace "right" "left" flipped
                              else flipped))
         (variables d) copies.
Proof.
  intros Hall.
  destruct (copy_variables_return (variables d) new_d Hall) as (copies & E & Hc).
  exists copies. split.
  - unfold fill_driver, bind, modify. now rewrite E.
  - exact Hc.
Qed.

(** The driver that [mirror_driver] adds to the drivers of the object is
    the one that [fill_driver] fills. *)
Lemma mirror_driver_adds (from_bone to_bone : string)
    (from_constraint to_constraint : option Constraint) (d new_d : Driver)
    (ds ds' : list Driver) (armature : Rig) :
  contains (bone_path from_bone) (d_data_path d) = true ->
  (contains "constraints[" (d_data_path d)
   && match from_constraint with None => true | Some _ => false end) = false ->
  match from_constraint with
  | Some c => negb (contains (con_name c) (d_data_path d))
  | None => false
  end = false ->
  drivers armature = Some ds ->
  make_driver to_bone from_constraint to_constraint d ds = (ds', Returned new_d) ->
  mirror_driver from_bone to_bone from_constraint to_constraint d armature
  = (set_drivers (Some (ds' ++ [fst (fill_driver d new_d)])) armature,
     snd (fill_driver d new_d)).
Proof.
  intros H1 H2 H3 Hds Hmake. unfold mirror_driver.
  rewrite H1, H2, H3. change (negb true) with false. cbv beta iota.
  rewrite Hds, Hmake. now destruct (fill_driver d new_d).
Qed.

End DriverFacts.

(** *** A host for the examples *)

Fixpoint find_split (p : Constraint -> bool) (before l : list Constraint)
    : option (list Constraint * Constraint * list Constraint) :=
  match l with
  | [] => None
  | c :: l' => if p c then Some (before, c, l')
               else find_split p (before ++ [c]) l'
  end.

(** A host that flips a final [.L] or [.R], whose built-in symmetrize
    operator leaves the rig as it is, whose [find_or_create_constraint]
    takes the constraint of the type and name or appends one, and whose
    [copy_attributes] copies the values that can be assigned. *)
Definition example_host : Host :=
  {| flip_name := flip_suffix;
     armature_symmetrize := fun r => r;
     find_or_create_constraint := fun l ctype cname =>
       match find_split (fun c => String.eqb (con_type c) ctype
                                  && String.eqb (con_name c) cname) [] l with
       | Some r => Some r
       | None => Some (l, {| con_name := cname; con_type := ctype; action := None;
                             min_x := 0; max_x := 0; track_axis := "TRACK_Y";
                             targets := []; influence := 1 |}, [])
       end;
     copy_attributes_constraint := fun src dst _ =>
       {| con_name := con_name dst; con_type := con_type dst; action := action src;
          min_x := min_x src; max_x := max_x src; track_axis := track_axis src;
          targets := targets dst; influence := influence src |};
     copy_attributes_fcurve := fun src dst _ =>
       {| fc_data_path := fc_data_path dst; fc_array_index := fc_array_index src;
          group := group dst; keyframe_points := keyframe_points dst;
          extrapolation := extrapolation src |};
     copy_attributes_keyframe := fun src dst _ =>
       {| co := co src; handle_left := handle_left src;
          handle_right := handle_right src; interpolation := interpolation src |};
     driver_remove := fun ds owner path index =>
       filter (fun d => negb (String.eqb (d_data_path d) (owner +++ "." +++ path)
                              && match index with
                                 | Some i => Z.eqb (d_array_index d) i
                                 | None => true
                                 end)) ds;
     driver_add := fun owner path index =>
       Some {| d_data_path := owner +++ "." +++ path;
               d_array_index := match index with Some i => i | None => 0%Z end;
               expression := EmptyString; variables := [] |};
     new_variable_targets := fun ty =>
       let t := {| id_type := "OBJECT"; id := EmptyString; rotation_mode := "AUTO";
                   bone_target := EmptyString; data_path := EmptyString;
                   transform_type := "LOC_X"; transform_space := "WORLD_SPACE" |} in
       if String.eqb ty "ROTATION_DIFF" || String.eqb ty "LOC_DIFF" then [t; t] else [t];
     new_keyframe := fun frame value =>
       {| co := (frame, value); handle_left := (frame, value);
          handle_right := (frame, value); interpolation := "BEZIER" |} |}.

Definition limit_location (n : string) (lo hi : Q) : Constraint :=
  {| con_name := n; con_type := "LIMIT_LOCATION"; action := None;
     min_x := lo; max_x := hi; track_axis := "TRACK_Y"; targets := [];
     influence := 1 |}.

Definition pose_bone (n : string) (cs : list Constraint) : PoseBone :=
  {| pb_name := n; constraints := cs; collections := [];
     eb_hide := false; eb_select := false |}.

Definition driver_on (path : string) : Driver :=
  {| d_data_path := path; d_array_index := 0; expression := "var";
     variables := [] |}.

Definition rig_with (bs : list PoseBone) (selected : list string)
    (ds : option (list Driver)) : Rig :=
  {| object_type := "ARMATURE"; mode := POSE; pose_bones := bs;
     selected_pose_bones := selected; drivers := ds; actions := [];
     data_collections := []; reports := [] |}.

(** The left arm and the left leg are selected; each has a Limit Location
    constraint and an opposite bone that is not selected. *)
Definition left_side_selected : Rig :=
  rig_with [pose_bone "arm.L" [limit_location "Limit" 1 3];
            pose_bone "arm.R" [];
            pose_bone "leg.L" [limit_location "Limit" 2 5];
            pose_bone "leg.R" []]
           ["arm.L"; "leg.L"] None.

(** C1: with the left arm and the left leg selected, each with an
    unselected opposite, the mapping holds the arm only, for line 58
    returns from inside the loop; the run finishes with the constraint of
    the arm mirrored and the opposite of the leg without any. *)
Theorem only_first_bone_is_mapped :
  get_symmetrize_bone_mapping (host := example_host) left_side_selected
  = (left_side_selected, Returned (ReturnedMap [("arm.L", "arm.R")]))
  /\ snd (execute (host := example_host) left_side_selected) = Returned FINISHED
  /\ option_map constraints
       (get_pose_bone "arm.R"
          (pose_bones (fst (execute (host := example_host) left_side_selected))))
     = Some [limit_location "Limit" (-3) (-1)]
  /\ option_map constraints
       (get_pose_bone "leg.R"
          (pose_bones (fst (execute (host := example_host) left_side_selected))))
     = Some [].
Proof. repeat split; vm_compute; reflexivity. Qed.

(** The left arm is selected and the armature has no right arm. *)
Definition no_opposite_bone : Rig :=
  rig_with [pose_bone "spine" []; pose_bone "arm.L" [limit_location "Limit" 1 3]]
           ["arm.L"] None.

(** C2: under the poll condition, with a selected bone that can be
    flipped and no bone on the other side, the mapping returns nothing and
    [execute] raises where it asks it for its values. *)
Theorem execute_raises_without_opposite :
  poll (host := example_host) no_opposite_bone = true
  /\ get_symmetrize_bone_mapping (host := example_host) no_opposite_bone
     = (no_opposite_bone, Returned ReturnedNone)
  /\ execute (host := example_host) no_opposite_bone
     = (no_opposite_bone, Raised (AttributeError "values")).
Proof. repeat split; vm_compute; reflexivity. Qed.

(** *** The statements on examples *)

(** Both arms are selected, after the spine. *)
Definition both_arms_selected : Rig :=
  rig_with [pose_bone "spine" [];
            pose_bone "arm.L" [limit_location "Limit" 1 3];
            pose_bone "arm.R" [limit_location "Old" 0 0]]
           ["spine"; "arm.L"; "arm.R"]
           (Some [driver_on (constraint_prefix "arm.R" "Old" +++ "influence")]).

Lemma both_sides_selected_cancels_witness :
  snd (execute (host := example_host) both_arms_selected) = Returned CANCELLED
  /\ reports (fst (execute (host := example_host) both_arms_selected))
     = [("ERROR", both_sides_message "arm.L")]
  /\ pose_bones (fst (execute (host := example_host) both_arms_selected))
     = pose_bones both_arms_selected
  /\ drivers (fst (execute (host := example_host) both_arms_selected))
     = drivers both_arms_selected.
Proof.
  destruct (both_sides_selected_cancels (host := example_host) both_arms_selected
              ["spine"] ["arm.R"] "arm.L") as (H1 & H2 & H3 & H4 & _).
  - reflexivity.
  - intros p [<- | []]. left. reflexivity.
  - split.
    + vm_compute. discriminate.
    + exists (pose_bone "arm.R" [limit_location "Old" 0 0]). split.
      * reflexivity.
      * simpl. tauto.
  - split; [exact H1 | split; [exact H2 | split; [exact H3 | exact H4]]].
Defined.

(** The left leg is selected before the two arms; the right leg is not
    selected and carries a constraint with a driver. *)
Definition leg_before_both_arms : Rig :=
  rig_with [pose_bone "leg.L" [];
            pose_bone "leg.R" [limit_location "Old" 0 0];
            pose_bone "arm.L" [limit_location "Limit" 1 3];
            pose_bone "arm.R" []]
           ["leg.L"; "arm.L"; "arm.R"]
           (Some [driver_on (constraint_prefix "leg.R" "Old" +++ "influence")]).

(** C3: the left arm is selected and its flipped name names the right
    arm, which is selected too; yet the left leg stands before it and has
    an unselected opposite, so line 58 returns the dictionary of the leg
    before the arm is looked at: [execute] reports no error and returns
    [{'FINISHED'}], and the constraint that the right leg had at entry
    and the driver on it are removed. *)
Theorem both_sides_not_seen_after_mapped_bone :
  on_both_sides (host := example_host) leg_before_both_arms
    (selected_pose_bones leg_before_both_arms) "arm.L"
  /\ get_symmetrize_bone_mapping (host := example_host) leg_before_both_arms
     = (leg_before_both_arms, Returned (ReturnedMap [("leg.L", "leg.R")]))
  /\ option_map constraints
       (get_pose_bone "leg.R" (pose_bones leg_before_both_arms))
     = Some [limit_location "Old" 0 0]
  /\ drivers leg_before_both_arms
     = Some [driver_on (constraint_prefix "leg.R" "Old" +++ "influence")]
  /\ snd (execute (host := example_host) leg_before_both_arms) = Returned FINISHED
  /\ reports (fst (execute (host := example_host) leg_before_both_arms)) = []
  /\ option_map constraints
       (get_pose_bone "leg.R"
          (pose_bones (fst (execute (host := example_host) leg_before_both_arms))))
     = Some []
  /\ drivers (fst (execute (host := example_host) leg_before_both_arms)) = Some [].
Proof.
  split.
  - split; [vm_compute; discriminate|].
    exists (pose_bone "arm.R" []). split; [reflexivity | simpl; tauto].
  - repeat split; vm_compute; reflexivity.
Qed.

(** The right arm has two constraints; there are drivers on each of
    them, on a constraint of the left arm and on the location of the right
    arm. *)
Definition right_arm_constrained : Rig :=
  rig_with [pose_bone "arm.L" [limit_location "Limit" 1 3];
            pose_bone "arm.R" [limit_location "Limit" 0 0; limit_location "Old" 0 0]]
           ["arm.L"]
           (Some [driver_on (constraint_prefix "arm.R" "Limit" +++ "influence");
                  driver_on (constraint_prefix "arm.L" "Limit" +++ "influence");
                  driver_on (constraint_prefix "arm.R" "Old" +++ "min_x");
                  driver_on (bone_path "arm.R" +++ ".location")]).


Lemma limit_location_x_swapped_negated_witness :
  exists mirrored,
    get_constraint "arm.R" 0
      (fst (mirror_constraint (host := example_host) "arm.L"
              (limit_location "Limit" 1 3) left_side_selected)) = Some mirrored
    /\ min_x mirrored = Qopp 3
    /\ max_x mirrored = Qopp 1
    /\ con_name mirrored = "Limit".
Proof.
  apply (limit_location_x_swapped_negated (host := example_host) left_side_selected
           "arm.L" (limit_location "Limit" 1 3) (pose_bone "arm.R" []) [] []
           {| con_name := "Limit"; con_type := "LIMIT_LOCATION"; action := None;
              min_x := 0; max_x := 0; track_axis := "TRACK_Y";
              targets := []; influence := 1 |}).
  - reflexivity.
  - vm_compute. discriminate.
  - reflexivity.
  - reflexivity.
Defined.

Definition keyframe (frame value : Q) : Keyframe :=
  {| co := (frame, value); handle_left := (frame - 1, value)%Q;
     handle_right := (frame + 1, value)%Q; interpolation := "BEZIER" |}.

Definition curve (path : string) (index : Z) (k : list Keyframe) : FCurve :=
  {| fc_data_path := path; fc_array_index := index; group := "arm.L";
     keyframe_points := k; extrapolation := "CONSTANT" |}.

(** The X and the Y location of the left arm, and a curve that the action
    already has for the X location of the right arm. *)
Definition arm_curves : list FCurve :=
  [curve (bone_path "arm.L" +++ ".location") 0 [keyframe 1 2; keyframe 10 4];
   curve (bone_path "arm.L" +++ ".location") 1 [keyframe 1 5];
   curve (bone_path "arm.R" +++ ".location") 0 [keyframe 1 7]].

Lemma example_host_copies : copy_attributes_copies (host := example_host).
Proof. split; intros src dst; repeat split; reflexivity. Qed.


(** A driver with one variable that reads a property of the left hand. *)
Definition hand_driver : Driver :=
  {| d_data_path := bone_path "arm.L" +++ ".location"; d_array_index := 0;
     expression := "var";
     variables :=
       [{| var_type := "SINGLE_PROP"; var_name := "var";
           var_targets :=
             [{| id_type := "OBJECT"; id := "rig"; rotation_mode := "AUTO";
                 bone_target := "hand.L";
                 data_path := bone_path "hand.L" +++ "[" +++ quoted "left_curl" +++ "]";
                 transform_type := "LOC_X"; transform_space := "LOCAL_SPACE" |}] |}] |}.

Lemma driver_targets_flipped_witness :
  exists copies,
    fill_driver (host := example_host) hand_driver
      (driver_on (bone_path "arm.R" +++ ".location"))
    = (set_expression "var"
         (add_variables copies (driver_on (bone_path "arm.R" +++ ".location"))),
       Returned tt)
    /\ map (fun v => map (fun t => (bone_target t, data_path t)) (var_targets v)) copies
       = [[("hand.R", bone_path "hand.R" +++ "[" +++ quoted "right_curl" +++ "]")]].
Proof.
  destruct (driver_targets_flipped (host := example_host) hand_driver
              (driver_on (bone_path "arm.R" +++ ".location")))
    as (copies & E & F).
  - constructor; [|constructor]. split.
    + simpl. lia.
    + intros t [<- | []]. intros _. reflexivity.
  - exists copies. split; [exact E|].
    assert (V : fst (fill_driver (host := example_host) hand_driver
                       (driver_on (bone_path "arm.R" +++ ".location")))
                = set_expression "var"
                    (add_variables copies (driver_on (bone_path "arm.R" +++ ".location"))))
      by (now rewrite E).
    apply (f_equal variables) in V. vm_compute in V.
    rewrite <- V. reflexivity.
Defined.

(** *** What the mapping returns *)

Section MappingExtras.

Context {host : Host}.

Lemma passed_over_dec (rig : Rig) (pb : string) :
  {passed_over rig pb} + {~ passed_over rig pb}.
Proof.
  unfold passed_over. destruct (string_dec (flip_name pb) pb) as [E | E]; [now left; left|].
  destruct (get_pose_bone (flip_name pb) (pose_bones rig)) eqn:G.
  - right. intros [H | H]; [contradiction | discriminate].
  - left. now right.
Qed.

Lemma mapping_loop_outcome (selected rest : list string) (rig : Rig) :
  (Forall (passed_over rig) rest
   /\ mapping_loop selected rest [] rig = (rig, Returned ReturnedNone))
  \/ exists before pb after,
       rest = before ++ pb :: after
       /\ Forall (passed_over rig) before
       /\ flip_name pb <> pb
       /\ get_pose_bone (flip_name pb) (pose_bones rig) <> None
       /\ ((In (flip_name pb) selected
            /\ mapping_loop selected rest [] rig
               = (report "ERROR" (both_sides_message pb) rig,
                  Returned ReturnedCancelled))
           \/ (~ In (flip_name pb) selected
               /\ mapping_loop selected rest [] rig
                  = (rig, Returned (ReturnedMap [(pb, flip_name pb)])))).
Proof.
  induction rest as [|p rest IH].
  - left. split; [constructor | reflexivity].
  - destruct (passed_over_dec rig p) as [Hp | Hp].
    + assert (E : mapping_loop selected (p :: rest) [] rig
                  = mapping_loop selected rest [] rig).
      { simpl. destruct (String.eqb (flip_name p) p) eqn:F; [reflexivity|].
        apply String.eqb_neq in F. destruct Hp as [Hp | Hp]; [contradiction|].
        unfold bind, get. now rewrite Hp. }
      rewrite E. destruct IH as [[Hall Hr] | (before & pb & after & -> & Hb & H)].
      * left. split; [now constructor | exact Hr].
      * right. exists (p :: before), pb, after. split; [reflexivity|].
        split; [now constructor | exact H].
    + right. exists [], p, rest. split; [reflexivity|]. split; [constructor|].
      unfold passed_over in Hp.
      assert (Hne : flip_name p <> p) by tauto.
      destruct (get_pose_bone (flip_name p) (pose_bones rig)) as [opp|] eqn:G;
        [|tauto].
      split; [exact Hne|]. split; [discriminate|].
      pose proof (get_pose_bone_name _ _ _ G) as Hname.
      simpl. apply String.eqb_neq in Hne. rewrite Hne.
      unfold bind, get, modify, ret. rewrite G. simpl. rewrite Hname.
      destruct (mem (flip_name p) selected) eqn:M.
      * left. split; [now apply mem_In | reflexivity].
      * right. split.
        -- intros H. apply mem_In in H. congruence.
        -- now rewrite Hne.
Qed.

(** X7: [get_symmetrize_bone_mapping] goes by the first selected bone
    whose name flips to the name of an existing bone.  Without such a bone
    it returns nothing; when the opposite of that bone is selected too it
    reports the error and returns [{'CANCELLED'}]; otherwise it returns
    the dictionary that maps that bone to its opposite and nothing else.
    But for the report the rig is left as it was. *)
Theorem mapping_goes_by_first_flippable_bone (rig : Rig) :
  (Forall (passed_over rig) (selected_pose_bones rig)
   /\ get_symmetrize_bone_mapping rig = (rig, Returned ReturnedNone))
  \/ exists before pb after,
       selected_pose_bones rig = before ++ pb :: after
       /\ Forall (passed_over rig) before
       /\ flip_name pb <> pb
       /\ get_pose_bone (flip_name pb) (pose_bones rig) <> None
       /\ ((In (flip_name pb) (selected_pose_bones rig)
            /\ get_symmetrize_bone_mapping rig
               = (report "ERROR" (both_sides_message pb) rig,
                  Returned ReturnedCancelled))
           \/ (~ In (flip_name pb) (selected_pose_bones rig)
               /\ get_symmetrize_bone_mapping rig
                  = (rig, Returned (ReturnedMap [(pb, flip_name pb)])))).
Proof.
  unfold get_symmetrize_bone_mapping, bind, get.
  apply mapping_loop_outcome.
Qed.

(** X8: when no selected bone has a name that flips to the name of an
    existing bone, [execute] raises [AttributeError] and leaves the rig as
    it was. *)
Theorem execute_raises_without_any_opposite (rig : Rig) :
  Forall (passed_over rig) (selected_pose_bones rig) ->
  execute rig = (rig, Raised (AttributeError "values")).
Proof.
  intros H.
  destruct (mapping_loop_outcome (selected_pose_bones rig) (selected_pose_bones rig) rig)
    as [[_ E] | (before & pb & after & Hsel & _ & Hne & Hg & _)].
  - unfold execute, get_symmetrize_bone_mapping, bind, get. now rewrite E.
  - exfalso. rewrite Hsel in H. apply Forall_app in H. destruct H as [_ H].
    inversion H as [|? ? Hp _]; subst. destruct Hp; contradiction.
Qed.

End MappingExtras.

Lemma execute_raises_without_any_opposite_witness :
  execute (host := example_host) no_opposite_bone
  = (no_opposite_bone, Raised (AttributeError "values")).
Proof.
  apply (execute_raises_without_any_opposite (host := example_host) no_opposite_bone).
  constructor; [|constructor]. right. reflexivity.
Defined.

(** *** What [mirror_drivers] touches and when it raises *)

Lemma append_assoc_char (acc s : string) (c : ascii) :
  (acc +++ String c EmptyString) +++ s = acc +++ String c s.
Proof. induction acc as [|a acc IH]; simpl; [reflexivity | now rewrite IH]. Qed.

Lemma append_empty (s : string) : s +++ EmptyString = s.
Proof. induction s as [|a s IH]; simpl; [reflexivity | now rewrite IH]. Qed.

(** A string without the separator is one piece. *)
Lemma split_go_one (sep acc s : string) :
  contains sep s = false -> split_go sep None 0 acc s = [acc +++ s].
Proof.
  revert acc. induction s as [|c s IH]; intros acc; simpl.
  - intros _. now rewrite append_empty.
  - destruct (startswith sep (String c s)); [discriminate|].
    intros H. rewrite IH by exact H. now rewrite append_assoc_char.
Qed.

Section DriverExtras.

Context {host : Host}.

(** A driver that the loop of line 217 leaves out: it is not on the
    source bone, or it is on a constraint when none is given, or it does
    not carry the name of the constraint that is given. *)
Definition left_out (from_bone : string) (from_constraint : option Constraint)
    (d : Driver) : Prop :=
  contains (bone_path from_bone) (d_data_path d) = false
  \/ (contains "constraints[" (d_data_path d) = true /\ from_constraint = None)
  \/ (exists c, from_constraint = Some c
                /\ contains (con_name c) (d_data_path d) = false).

Lemma mirror_driver_left_out (from_bone to_bone : string)
    (from_constraint to_constraint : option Constraint) (d : Driver) (r : Rig) :
  left_out from_bone from_constraint d ->
  mirror_driver from_bone to_bone from_constraint to_constraint d r = (r, Returned tt).
Proof.
  intros H. unfold mirror_driver.
  destruct (contains (bone_path from_bone) (d_data_path d)) eqn:B; [|reflexivity].
  simpl negb. cbv iota.
  destruct H as [H | [[H1 H2] | (c & H1 & H2)]]; [congruence | |].
  - subst from_constraint. now rewrite H1.
  - subst from_constraint. rewrite andb_false_r, H2. reflexivity.
Qed.

Lemma mirror_driver_frame (from_bone to_bone : string)
    (from_constraint to_constraint : option Constraint) (d : Driver) (r : Rig) :
  let r' := fst (mirror_driver from_bone to_bone from_constraint to_constraint d r) in
  (selected_pose_bones r' = selected_pose_bones r /\ mode r' = mode r)
  /\ (reports r' = reports r /\ data_collections r' = data_collections r)
  /\ object_type r' = object_type r.
Proof.
  unfold mirror_driver.
  destruct (negb (contains (bone_path from_bone) (d_data_path d))); [now repeat split|].
  destruct (contains "constraints[" (d_data_path d)
            && match from_constraint with None => true | Some _ => false end);
    [now repeat split|].
  destruct (match from_constraint with
            | Some c => negb (contains (con_name c) (d_data_path d))
            | None => false end); [now repeat split|].
  destruct (make_driver _ _ _ _ _) as [ds [new_d|e]]; [|now repeat split].
  destruct (fill_driver d new_d) as [nd out]. now repeat split.
Qed.

(** X9: [mirror_drivers] writes to the drivers of the object and to
    nothing else, however it ends: bones and their constraints, actions,
    selection, mode, bone collections and reports are as before; an object
    without animation data is returned as it is. *)
Theorem mirror_drivers_writes_drivers_only (from_bone to_bone : string)
    (from_constraint to_constraint : option Constraint) (r : Rig) :
  let r' := fst (mirror_drivers from_bone to_bone from_constraint to_constraint r) in
  pose_bones r' = pose_bones r
  /\ actions r' = actions r
  /\ selected_pose_bones r' = selected_pose_bones r
  /\ mode r' = mode r
  /\ reports r' = reports r
  /\ data_collections r' = data_collections r
  /\ object_type r' = object_type r
  /\ (drivers r = None ->
      mirror_drivers from_bone to_bone from_constraint to_constraint r
      = (r, Returned tt)).
Proof.
  cbv zeta.
  destruct (mirror_drivers_keeps from_bone to_bone from_constraint to_constraint r)
    as [K1 K2].
  split; [exact K1|]. split; [exact K2|].
  unfold mirror_drivers, bind, get.
  destruct (drivers r) as [ds|] eqn:D.
  2:{ repeat split; reflexivity. }
  assert (F : forall (T : Type) (proj : Rig -> T),
            (forall d s, proj (fst (mirror_driver from_bone to_bone from_constraint
                                      to_constraint d s)) = proj s) ->
            proj (fst (for_each ds (mirror_driver from_bone to_bone from_constraint
                                      to_constraint) r)) = proj r).
  { intros T proj Hp. now apply for_each_keeps. }
  split; [apply (F _ selected_pose_bones); intros d s;
          apply (mirror_driver_frame from_bone to_bone from_constraint to_constraint d s)|].
  split; [apply (F _ mode); intros d s;
          apply (mirror_driver_frame from_bone to_bone from_constraint to_constraint d s)|].
  split; [apply (F _ reports); intros d s;
          apply (mirror_driver_frame from_bone to_bone from_constraint to_constraint d s)|].
  split; [apply (F _ data_collections); intros d s;
          apply (mirror_driver_frame from_bone to_bone from_constraint to_constraint d s)|].
  split; [apply (F _ object_type); intros d s;
          apply (mirror_driver_frame from_bone to_bone from_constraint to_constraint d s)|].
  discriminate.
Qed.

(** X10: when every driver of the object is left out by the loop of line
    217 (none is on the source bone, or those that are sit on a constraint
    while no constraint is given, or do not carry the name of the given
    constraint), [mirror_drivers] returns with the object as it was: no
    driver is removed and none is added. *)
Theorem mirror_drivers_leaves_other_drivers (from_bone to_bone : string)
    (from_constraint to_constraint : option Constraint) (r : Rig) (ds : list Driver) :
  drivers r = Some ds ->
  Forall (left_out from_bone from_constraint) ds ->
  mirror_drivers from_bone to_bone from_constraint to_constraint r = (r, Returned tt).
Proof.
  intros D Hall. unfold mirror_drivers, bind, get. rewrite D. clear D.
  induction Hall as [|d ds Hd Hds IH]; simpl; [reflexivity|].
  unfold bind. rewrite (mirror_driver_left_out _ _ _ _ d r Hd). exact IH.
Qed.

(** X11: for a data path that contains [pose.bones] and not [pose.bones]
    followed by an opening bracket and a double quote (a bone taken by
    index, say), line 282 raises [IndexError]; the copy of a variable with
    such a first target stops there, after the variable was added with the
    bone target of that target flipped. *)
Theorem unquoted_bone_path_raises (data_path : string) :
  contains "pose.bones" data_path = true ->
  contains ("pose.bones[" +++ dq) data_path = false ->
  flip_data_path data_path = Raised IndexError
  /\ forall from_var new_d from_target rest,
       var_targets from_var = from_target :: rest ->
       Symmetrize.data_path from_target = data_path ->
       new_variable_targets (var_type from_var) <> [] ->
       snd (copy_variable from_var new_d) = Raised IndexError
       /\ exists to_var,
            variables (fst (copy_variable from_var new_d)) = variables new_d ++ [to_var]
            /\ option_map bone_target (nth_error (var_targets to_var) 0)
               = Some (flip_name (bone_target from_target)).
Proof.
  intros H1 H2.
  assert (E : flip_data_path data_path = Raised IndexError).
  { unfold flip_data_path. rewrite H1. unfold split.
    now rewrite (split_go_one _ _ _ H2). }
  split; [exact E|].
  intros from_var new_d from_target rest Ht Hp Hnew.
  unfold copy_variable. rewrite Ht. simpl copy_targets.
  unfold bind, get, raise, modify, ret.
  destruct (new_variable_targets (var_type from_var)) as [|t0 ts] eqn:N;
    [congruence|].
  simpl nth_error. cbv beta iota. rewrite Hp, E.
  destruct (String.eqb (var_type from_var) "SINGLE_PROP"); simpl;
    (split; [reflexivity | eexists; split; [reflexivity | reflexivity]]).
Qed.

End DriverExtras.

Lemma mirror_drivers_leaves_other_drivers_witness :
  mirror_drivers (host := example_host) "arm.L" "arm.R" None None right_arm_constrained
  = (right_arm_constrained, Returned tt).
Proof.
  eapply (mirror_drivers_leaves_other_drivers (host := example_host)).
  - reflexivity.
  - apply Forall_cons; [left; reflexivity|].
    apply Forall_cons; [right; left; split; reflexivity|].
    apply Forall_cons; [left; reflexivity|].
    apply Forall_cons; [left; reflexivity|].
    apply Forall_nil.
Defined.

Lemma unquoted_bone_path_raises_witness :
  flip_data_path (host := example_host) "pose.bones[0].location" = Raised IndexError.
Proof.
  apply (unquoted_bone_path_raises (host := example_host) "pose.bones[0].location");
    reflexivity.
Defined.

(** *** The other kinds of constraint *)

Section ConstraintExtras.

Context {host : Host}.

(** The rig when [mirror_constraint] has found [opp_c], copied the
    attributes to it and named it. *)
Definition with_opposite (rig : Rig) (pbone : string) (con : Constraint)
    (before after : list Constraint) (opp_c : Constraint) : Rig :=
  set_pose_bones
    (update_pose_bone (flip_name pbone)
       (set_constraints
          (before
           ++ set_con_name (flip_name (con_name con))
                (copy_attributes_constraint con opp_c ["name"; "subtarget"])
           :: after))
       (pose_bones rig)) rig.

Lemma mirror_constraint_bones (rig : Rig) (pbone : string) (con : Constraint)
    (opp : PoseBone) (before after : list Constraint) (opp_c : Constraint) :
  flip_name pbone <> pbone ->
  get_pose_bone (flip_name pbone) (pose_bones rig) = Some opp ->
  opposite_constraint opp con = Some (before, opp_c, after) ->
  pose_bones (fst (mirror_constraint pbone con rig))
  = pose_bones (fst (mirror_by_type pbone (flip_name pbone) con (List.length before)
                       (with_opposite rig pbone con before after opp_c)))
  /\ get_constraint (flip_name pbone) (List.length before)
       (with_opposite rig pbone con before after opp_c)
     = Some (set_con_name (flip_name (con_name con))
               (copy_attributes_constraint con opp_c ["name"; "subtarget"])).
Proof.
  intros Hflip Hopp Hfound.
  pose proof (get_pose_bone_name _ _ _ Hopp) as Hname. split.
  - unfold mirror_constraint, bind, get. rewrite Hopp, Hname.
    assert (N : String.eqb pbone (flip_name pbone) = false)
      by (apply String.eqb_neq; congruence).
    rewrite N. unfold opposite_constraint in Hfound. rewrite Hfound.
    unfold modify at 1. cbv beta iota. fold (with_opposite rig pbone con before after opp_c).
    destruct (mirror_by_type pbone (flip_name pbone) con (List.length before)
                (with_opposite rig pbone con before after opp_c)) as [r1 [[]|e]];
      [|reflexivity].
    simpl fst.
    match goal with
    | |- context [mirror_drivers ?a ?b ?c ?d ?s] =>
        destruct (mirror_drivers_keeps a b c d s) as [K _]; exact K
    end.
  - unfold get_constraint, with_opposite. simpl.
    rewrite get_pose_bone_update by reflexivity. rewrite Hopp. simpl.
    apply nth_error_middle.
Qed.

Definition flipped_target (t : ArmatureTarget) : ArmatureTarget :=
  {| target := target t; subtarget := flip_name (subtarget t); weight := weight t |}.

Lemma add_targets_loop (opp_pb : string) (i : nat) (ts : list ArmatureTarget)
    (r : Rig) (c : Constraint) :
  get_constraint opp_pb i r = Some c ->
  let res := for_each ts
               (fun from_tar =>
                  modify (update_constraint opp_pb i
                            (add_target (flipped_target from_tar)))) r in
  snd res = Returned tt
  /\ exists c', get_constraint opp_pb i (fst res) = Some c'
                /\ targets c' = targets c ++ map flipped_target ts
                /\ con_name c' = con_name c /\ con_type c' = con_type c.
Proof.
  revert r c. induction ts as [|t ts IH]; intros r c Hc; cbv zeta.
  - simpl. split; [reflexivity|]. exists c. rewrite app_nil_r. auto.
  - simpl for_each. unfold bind, modify. cbv beta iota.
    destruct (IH (update_constraint opp_pb i (add_target (flipped_target t)) r)
                (add_target (flipped_target t) c)) as (I1 & c' & I2 & I3 & I4 & I5).
    { rewrite get_constraint_update, Hc. reflexivity. }
    split; [exact I1|]. exists c'. split; [exact I2|].
    simpl in I3. rewrite <- app_assoc in I3. auto.
Qed.

(** X12: when [mirror_constraint] mirrors an Armature constraint, the
    opposite constraint ends with the targets it had after the copy of the
    attributes followed by one target for each target of the source, in
    order, with the same object and weight and the flipped name of the
    bone. *)
Theorem armature_targets_mirrored (rig : Rig) (pbone : string) (con : Constraint)
    (opp : PoseBone) (before after : list Constraint) (opp_c : Constraint) :
  con_type con = "ARMATURE" ->
  flip_name pbone <> pbone ->
  get_pose_bone (flip_name pbone) (pose_bones rig) = Some opp ->
  opposite_constraint opp con = Some (before, opp_c, after) ->
  exists mirrored,
    get_constraint (flip_name pbone) (List.length before)
      (fst (mirror_constraint pbone con rig)) = Some mirrored
    /\ targets mirrored
       = targets (copy_attributes_constraint con opp_c ["name"; "subtarget"])
         ++ map (fun t => {| target := target t;
                             subtarget := flip_name (subtarget t);
                             weight := weight t |}) (targets con)
    /\ con_name mirrored = flip_name (con_name con).
Proof.
  intros Htype Hflip Hopp Hfound.
  destruct (mirror_constraint_bones rig pbone con opp before after opp_c
              Hflip Hopp Hfound) as [B G].
  assert (E : mirror_by_type pbone (flip_name pbone) con (List.length before)
                (with_opposite rig pbone con before after opp_c)
              = for_each (targets con)
                  (fun from_tar =>
                     modify (update_constraint (flip_name pbone) (List.length before)
                               (add_target (flipped_target from_tar))))
                  (with_opposite rig pbone con before after opp_c)).
  { unfold mirror_by_type. rewrite Htype. reflexivity. }
  rewrite E in B.
  destruct (add_targets_loop (flip_name pbone) (List.length before) (targets con) _ _ G)
    as (_ & c' & C1 & C2 & C3 & _).
  exists c'. unfold get_constraint in *. rewrite B. split; [exact C1|].
  split; [exact C2 | exact C3].
Qed.

(** The opposite of a track axis along X. *)
Definition opposite_axis (axis : string) : string :=
  if String.eqb axis "TRACK_NEGATIVE_X" then "TRACK_X"
  else if String.eqb axis "TRACK_X" then "TRACK_NEGATIVE_X"
  else axis.

(** X13: when [mirror_constraint] mirrors a Damped Track constraint and
    the copy of the attributes gives the opposite constraint the track
    axis of the source, the opposite constraint ends with [TRACK_X] for
    [TRACK_NEGATIVE_X], [TRACK_NEGATIVE_X] for [TRACK_X], and the axis of
    the source otherwise. *)
Theorem damped_track_axis_flipped (rig : Rig) (pbone : string) (con : Constraint)
    (opp : PoseBone) (before after : list Constraint) (opp_c : Constraint) :
  con_type con = "DAMPED_TRACK" ->
  flip_name pbone <> pbone ->
  get_pose_bone (flip_name pbone) (pose_bones rig) = Some opp ->
  opposite_constraint opp con = Some (before, opp_c, after) ->
  track_axis (copy_attributes_constraint con opp_c ["name"; "subtarget"])
  = track_axis con ->
  exists mirrored,
    get_constraint (flip_name pbone) (List.length before)
      (fst (mirror_constraint pbone con rig)) = Some mirrored
    /\ track_axis mirrored = opposite_axis (track_axis con)
    /\ con_name mirrored = flip_name (con_name con).
Proof.
  intros Htype Hflip Hopp Hfound Hcopy.
  destruct (mirror_constraint_bones rig pbone con opp before after opp_c
              Hflip Hopp Hfound) as [B G].
  set (r1 := with_opposite rig pbone con before after opp_c) in *.
  set (c1 := set_con_name (flip_name (con_name con))
               (copy_attributes_constraint con opp_c ["name"; "subtarget"])) in *.
  assert (A : track_axis c1 = track_axis con) by exact Hcopy.
  assert (E : exists c',
             get_constraint (flip_name pbone) (List.length before)
               (fst (mirror_by_type pbone (flip_name pbone) con (List.length before) r1))
             = Some c'
             /\ track_axis c' = opposite_axis (track_axis con)
             /\ con_name c' = con_name c1).
  { unfold mirror_by_type. rewrite Htype.
    change (String.eqb "DAMPED_TRACK" "ACTION") with false.
    change (String.eqb "DAMPED_TRACK" "LIMIT_LOCATION") with false.
    change (String.eqb "DAMPED_TRACK" "DAMPED_TRACK") with true.
    change (false && negb (String.eqb pbone (flip_name pbone))) with false.
    unfold bind, get. cbv beta iota. rewrite G. rewrite A. unfold opposite_axis.
    destruct (String.eqb (track_axis con) "TRACK_NEGATIVE_X") eqn:N.
    - simpl orb. cbv iota. unfold modify. simpl fst.
      rewrite get_constraint_update, G. simpl. eauto.
    - destruct (String.eqb (track_axis con) "TRACK_X") eqn:X.
      + simpl orb. cbv iota. unfold modify. simpl fst.
        rewrite get_constraint_update, G. simpl. eauto.
      + simpl orb. cbv iota. unfold ret. simpl fst. exists c1. auto. }
  destruct E as (c' & E1 & E2 & E3). exists c'.
  unfold get_constraint in *. rewrite B. split; [exact E1|]. split; [exact E2|].
  rewrite E3. reflexivity.
Qed.

End ConstraintExtras.

Definition armature_constraint (n : string) (ts : list ArmatureTarget) : Constraint :=
  {| con_name := n; con_type := "ARMATURE"; action := None; min_x := 0; max_x := 0;
     track_axis := "TRACK_Y"; targets := ts; influence := 1 |}.

Definition damped_track (n axis : string) : Constraint :=
  {| con_name := n; con_type := "DAMPED_TRACK"; action := None; min_x := 0;
     max_x := 0; track_axis := axis; targets := []; influence := 1 |}.

Lemma armature_targets_mirrored_witness :
  exists mirrored,
    get_constraint "arm.R" 0
      (fst (mirror_constraint (host := example_host) "arm.L"
              (armature_constraint "Armature"
                 [{| target := "rig"; subtarget := "hand.L"; weight := 1 |}])
              left_side_selected)) = Some mirrored
    /\ targets mirrored = [{| target := "rig"; subtarget := "hand.R"; weight := 1 |}]
    /\ con_name mirrored = "Armature".
Proof.
  apply (armature_targets_mirrored (host := example_host) left_side_selected "arm.L"
           (armature_constraint "Armature"
              [{| target := "rig"; subtarget := "hand.L"; weight := 1 |}])
           (pose_bone "arm.R" []) [] []
           {| con_name := "Armature"; con_type := "ARMATURE"; action := None;
              min_x := 0; max_x := 0; track_axis := "TRACK_Y";
              targets := []; influence := 1 |}).
  - reflexivity.
  - vm_compute. discriminate.
  - reflexivity.
  - reflexivity.
Defined.

Lemma damped_track_axis_flipped_witness :
  exists mirrored,
    get_constraint "arm.R" 0
      (fst (mirror_constraint (host := example_host) "arm.L"
              (damped_track "Track" "TRACK_X") left_side_selected)) = Some mirrored
    /\ track_axis mirrored = "TRACK_NEGATIVE_X"
    /\ con_name mirrored = "Track".
Proof.
  apply (damped_track_axis_flipped (host := example_host) left_side_selected "arm.L"
           (damped_track "Track" "TRACK_X") (pose_bone "arm.R" []) [] []
           {| con_name := "Track"; con_type := "DAMPED_TRACK"; action := None;
              min_x := 0; max_x := 0; track_axis := "TRACK_Y";
              targets := []; influence := 1 |}).
  - reflexivity.
  - vm_compute. discriminate.
  - reflexivity.
  - reflexivity.
  - reflexivity.
Defined.

(** *** The curves that are not mirrored, and the bone collections *)

Lemma find_filter_none {A} (p : A -> bool) (l : list A) :
  find p (filter (fun x => negb (p x)) l) = None.
Proof.
  induction l as [|x l IH]; simpl; [reflexivity|].
  destruct (p x) eqn:E; simpl; [exact IH | now rewrite E].
Qed.

(** X14: the loop of lines 151-157, given a round for every curve of the
    action or more, ends with no curve left on the channel and keeps the
    curves of the other channels in their order. *)
Theorem nuke_ends_with_channel_empty (data_path : string) (index : Z)
    (l : list FCurve) (more : nat) :
  nuke (List.length l + more) data_path index l
  = filter (fun c => negb (at_channel data_path index c)) l
  /\ find (at_channel data_path index)
       (nuke (List.length l + more) data_path index l) = None.
Proof.
  assert (E : nuke (List.length l + more) data_path index l
              = filter (fun c => negb (at_channel data_path index c)) l)
    by (apply nuke_filter; lia).
  split; [exact E|]. rewrite E. apply find_filter_none.
Qed.

Section CurveExtras.

Context {host : Host}.

(** A curve that stands on the opposite channel of none of [sources]. *)
Definition off_channels (pbone opp_pb : string) (sources : list FCurve) (c : FCurve)
    : bool :=
  negb (existsb (fun cur => at_channel (replace pbone opp_pb (fc_data_path cur))
                                       (fc_array_index cur) c) sources).

Lemma mirror_rounds_frame (pbone opp_pb : string) (sources curves l : list FCurve) :
  copy_attributes_copies ->
  incl curves sources ->
  filter (off_channels pbone opp_pb sources)
    (fold_left (mirror_curve_step pbone opp_pb) curves l)
  = filter (off_channels pbone opp_pb sources) l.
Proof.
  intros H. revert l. induction curves as [|c cs IH]; intros l Hincl; [reflexivity|].
  simpl fold_left. rewrite IH by (intros x Hx; apply Hincl; now right).
  unfold mirror_curve_step. rewrite nuke_filter by lia.
  rewrite filter_app. simpl.
  assert (Hc : off_channels pbone opp_pb sources (mirror_curve pbone opp_pb c) = false).
  { unfold off_channels. apply negb_false_iff, existsb_exists. exists c. split.
    - apply Hincl. now left.
    - apply (mirror_curve_on_channel pbone opp_pb c H). }
  rewrite Hc, app_nil_r, filter_twice. apply filter_ext. intros x.
  destruct (off_channels pbone opp_pb sources x) eqn:P.
  - rewrite andb_true_r. apply negb_true_iff.
    unfold off_channels in P. apply negb_true_iff in P.
    destruct (at_channel (replace pbone opp_pb (fc_data_path c)) (fc_array_index c) x)
      eqn:Q; [|reflexivity].
    assert (T : existsb (fun cur => at_channel (replace pbone opp_pb (fc_data_path cur))
                                      (fc_array_index cur) x) sources = true).
    { apply existsb_exists. exists c. split; [apply Hincl; now left | exact Q]. }
    congruence.
  - apply andb_false_r.
Qed.

Lemma mirror_rounds_origin (pbone opp_pb : string) (curves l : list FCurve)
    (c : FCurve) :
  In c (fold_left (mirror_curve_step pbone opp_pb) curves l) ->
  In c l \/ exists cur, In cur curves /\ c = mirror_curve pbone opp_pb cur.
Proof.
  revert l. induction curves as [|x cs IH]; intros l Hc; [now left|].
  simpl in Hc. apply IH in Hc. destruct Hc as [Hc | (cur & Hcur & ->)].
  - unfold mirror_curve_step in Hc. rewrite nuke_filter in Hc by lia.
    apply in_app_or in Hc. destruct Hc as [Hc | [<- | []]].
    + apply filter_In in Hc. tauto.
    + right. exists x. split; [now left | reflexivity].
  - right. exists cur. split; [now right | reflexivity].
Qed.

(** X15: mirroring the curves of an action keeps, in their order, the
    curves that stand on the opposite channel of no curve of the source
    bone, and every curve of the action afterwards is a curve it had or the
    opposite of a curve whose data path contains the name of the source
    bone. *)
Theorem other_curves_are_kept (pbone opp_pb : string) (l : list FCurve) :
  copy_attributes_copies ->
  let sources := filter (fun cur => contains pbone (fc_data_path cur)) l in
  filter (fun c =>
            negb (existsb (fun cur =>
                    at_channel (replace pbone opp_pb (fc_data_path cur))
                               (fc_array_index cur) c) sources))
    (mirror_action_curves pbone opp_pb l)
  = filter (fun c =>
              negb (existsb (fun cur =>
                      at_channel (replace pbone opp_pb (fc_data_path cur))
                                 (fc_array_index cur) c) sources)) l
  /\ forall c, In c (mirror_action_curves pbone opp_pb l) ->
       In c l
       \/ exists cur, In cur l /\ contains pbone (fc_data_path cur) = true
                      /\ c = mirror_curve pbone opp_pb cur.
Proof.
  intros H. cbv zeta. split.
  - apply (mirror_rounds_frame pbone opp_pb _ _ l H). intros x Hx. exact Hx.
  - intros c Hc. apply mirror_rounds_origin in Hc.
    destruct Hc as [Hc | (cur & Hcur & ->)]; [now left|].
    apply filter_In in Hcur. right. exists cur. tauto.
Qed.

Lemma assign_fold (g : string -> string) (xs acc : list string) :
  let res := fold_left (fun acc x => if mem (g x) acc then acc else acc ++ [g x])
               xs acc in
  (NoDup acc -> NoDup res)
  /\ forall c, In c res <-> In c acc \/ exists x, In x xs /\ c = g x.
Proof.
  revert acc. induction xs as [|x xs IH]; intros acc; cbv zeta; simpl.
  - split; [auto|]. intros c. split; [auto | intros [H | (x & [] & _)]; exact H].
  - destruct (mem (g x) acc) eqn:M.
    + destruct (IH acc) as [I1 I2]. split; [exact I1|]. intros c. rewrite I2. split.
      * intros [Hc | (y & Hy & ->)]; [now left | right; exists y; auto].
      * intros [Hc | (y & [<- | Hy] & ->)]; [now left | | right; exists y; auto].
        left. now apply mem_In.
    + destruct (IH (acc ++ [g x])) as [I1 I2]. split.
      * intros Hnd. apply I1. apply NoDup_app; [exact Hnd | repeat constructor; auto |].
        intros a Ha [<- | []]. apply mem_In in Ha. congruence.
      * intros c. rewrite I2, in_app_iff. simpl. split.
        -- intros [[Hc | [<- | []]] | (y & Hy & ->)];
             [now left | right; exists x; auto | right; exists y; auto].
        -- intros [Hc | (y & [<- | Hy] & ->)];
             [left; now left | left; right; now left | right; exists y; auto].
Qed.

(** X16: after lines 88-96 the target bone is assigned to one collection
    for each collection of the source bone and to no other: the collection
    of the flipped name when the armature has one, else the collection of
    the source itself; it is in each of them once, and its constraints and
    the other bones are as before. *)
Theorem collections_follow_source (rig : Rig) (from_pb to_pb : string)
    (from_bone to_bone : PoseBone) :
  get_pose_bone from_pb (pose_bones rig) = Some from_bone ->
  get_pose_bone to_pb (pose_bones rig) = Some to_bone ->
  let rig' := fst (mirror_collections from_pb to_pb rig) in
  snd (mirror_collections from_pb to_pb rig) = Returned tt
  /\ (exists to_bone',
        get_pose_bone to_pb (pose_bones rig') = Some to_bone'
        /\ NoDup (collections to_bone')
        /\ (forall c, In c (collections to_bone') <->
              exists from_coll,
                In from_coll (collections from_bone)
                /\ c = if mem (flip_name from_coll) (data_collections rig)
                       then flip_name from_coll else from_coll)
        /\ constraints to_bone' = constraints to_bone)
  /\ (forall other, other <> to_pb ->
        get_pose_bone other (pose_bones rig') = get_pose_bone other (pose_bones rig))
  /\ drivers rig' = drivers rig
  /\ actions rig' = actions rig.
Proof.
  intros Hfrom Hto. unfold mirror_collections, bind, get, modify. rewrite Hfrom.
  cbv zeta. simpl.
  set (g := fun from_coll => if mem (flip_name from_coll) (data_collections rig)
                             then flip_name from_coll else from_coll).
  destruct (assign_fold g (collections from_bone) []) as [A1 A2]. cbv zeta in A1, A2.
  split; [reflexivity|]. split.
  - exists (set_collections
              (fold_left (fun acc x => if mem (g x) acc then acc else acc ++ [g x])
                 (collections from_bone) []) to_bone).
    split.
    + rewrite get_pose_bone_update by reflexivity. rewrite Hto. reflexivity.
    + simpl. split; [apply A1; constructor|]. split; [|reflexivity].
      intros c. rewrite A2. fold (g c). split.
      * intros [[] | H]; exact H.
      * intros H. now right.
  - split; [|split; reflexivity].
    intros other Hne. now apply get_pose_bone_update_other.
Qed.

End CurveExtras.

(** The curves of the left arm, which stay, and a curve of the spine. *)
Definition arm_and_spine_curves : list FCurve :=
  arm_curves ++ [curve (bone_path "spine" +++ ".location") 0 [keyframe 1 9]].

Lemma other_curves_are_kept_witness :
  filter (off_channels "arm.L" "arm.R"
            (filter (fun cur => contains "arm.L" (fc_data_path cur))
               arm_and_spine_curves))
    (mirror_action_curves (host := example_host) "arm.L" "arm.R" arm_and_spine_curves)
  = filter (off_channels "arm.L" "arm.R"
              (filter (fun cur => contains "arm.L" (fc_data_path cur))
                 arm_and_spine_curves))
      arm_and_spine_curves.
Proof.
  destruct (other_curves_are_kept (host := example_host) "arm.L" "arm.R"
              arm_and_spine_curves example_host_copies) as [H _].
  exact H.
Defined.

Lemma collections_follow_source_witness :
  snd (mirror_collections (host := example_host) "arm.L" "arm.R"
         (rig_with [{| pb_name := "arm.L"; constraints := [];
                       collections := ["Arm.L"; "Deform"];
                       eb_hide := false; eb_select := false |};
                    pose_bone "arm.R" []] ["arm.L"] None))
  = Returned tt.
Proof.
  destruct (collections_follow_source (host := example_host)
              (rig_with [{| pb_name := "arm.L"; constraints := [];
                            collections := ["Arm.L"; "Deform"];
                            eb_hide := false; eb_select := false |};
                         pose_bone "arm.R" []] ["arm.L"] None)
              "arm.L" "arm.R"
              {| pb_name := "arm.L"; constraints := [];
                 collections := ["Arm.L"; "Deform"];
                 eb_hide := false; eb_select := false |}
              (pose_bone "arm.R" [])) as [H _].
  - reflexivity.
  - reflexivity.
  - exact H.
Defined.
End Symmetrize.

(** ** bone_parenting_ops.py: parenting with Armature constraints *)

Module ParentingOperators.

Import Py.
Import BoneParentingOps.
Local Open Scope py_scope.

(** [Constraint] and [ArmatureTarget] are those of the symmetrize
    operator. *)
Abbreviation Constraint := Symmetrize.Constraint.
Abbreviation ArmatureTarget := Symmetrize.ArmatureTarget.

(** A selected object with what the operator writes to. *)
Record Object : Type := {
  obj_name : string;
  obj_constraints : list Constraint;
  obj_parent : option string;
  parent_type : string
}.

(** The context: the active armature [context.object] with its name,
    [context.active_bone] and [context.active_pose_bone] by name, the
    constraints of the pose bones, and [context.selected_objects]. *)
Record Scene : Type := {
  armature : Context;
  rig_name : string;
  active_bone : option string;
  active_pose_bone : option string;
  pose_constraints : list (string * list Constraint);
  selected_objects : list Object
}.

Definition on_armature (f : Context -> Context) (s : Scene) : Scene :=
  {| armature := f (armature s); rig_name := rig_name s;
     active_bone := active_bone s; active_pose_bone := active_pose_bone s;
     pose_constraints := pose_constraints s;
     selected_objects := selected_objects s |}.

Definition set_pose_constraints (l : list (string * list Constraint)) (s : Scene)
    : Scene :=
  {| armature := armature s; rig_name := rig_name s;
     active_bone := active_bone s; active_pose_bone := active_pose_bone s;
     pose_constraints := l; selected_objects := selected_objects s |}.

Definition set_selected_objects (l : list Object) (s : Scene) : Scene :=
  {| armature := armature s; rig_name := rig_name s;
     active_bone := active_bone s; active_pose_bone := active_pose_bone s;
     pose_constraints := pose_constraints s; selected_objects := l |}.

(** [get_active_bone(context)]; in another mode than pose and edit the
    function returns nothing. *)
Definition get_active_bone (context : Scene) : option string :=
  match mode (armature context) with
  | POSE => match active_pose_bone context with
            | Some pb => Some pb
            | None => active_bone context
            end
  | EDIT => active_bone context
  | OBJECT => None
  end.

(** [bones.remove(x)]: the first bone that is [x] goes; [ValueError] when
    there is none. *)
Definition list_remove (x : option string) (bones : list Bone) : outcome (list Bone) :=
  match x with
  | None => Raised ValueError
  | Some n =>
      if existsb (fun b => String.eqb (name b) n) bones
      then Returned (Symmetrize.remove_first (fun b => String.eqb (name b) n) bones)
      else Raised ValueError
  end.

(** [get_selected_bones(context, exclude_active)] with an armature as
    active object. *)
Definition get_selected_bones_of (context : Scene) (exclude_active : bool)
    : outcome (list Bone) :=
  let bones := get_selected_bones (armature context) in
  if exclude_active then list_remove (get_active_bone context) bones
  else Returned bones.

Section Operators.

(** What the host makes for [constraints.new(type=...)] and for
    [targets.new()]. *)
Variable new_constraint : string -> Constraint.
Variable new_target : ArmatureTarget.

Definition set_targets (ts : list ArmatureTarget) (c : Constraint) : Constraint :=
  {| Symmetrize.con_name := Symmetrize.con_name c;
     Symmetrize.con_type := Symmetrize.con_type c;
     Symmetrize.action := Symmetrize.action c;
     Symmetrize.min_x := Symmetrize.min_x c;
     Symmetrize.max_x := Symmetrize.max_x c;
     Symmetrize.track_axis := Symmetrize.track_axis c;
     Symmetrize.targets := ts;
     Symmetrize.influence := Symmetrize.influence c |}.

Definition is_armature (c : Constraint) : bool :=
  String.eqb (Symmetrize.con_type c) "ARMATURE".

(** Lines 199-205 and 307-314: the first Armature constraint with its
    targets cleared, or a new constraint at the end; the answer is the
    constraints and the position of [arm_con]. *)
Fixpoint take_armature_constraint (cs : list Constraint) : list Constraint * nat :=
  match cs with
  | [] => ([new_constraint "ARMATURE"], O)
  | c :: cs' =>
      if is_armature c then (set_targets [] c :: cs', O)
      else let (l, i) := take_armature_constraint cs' in (c :: l, S i)
  end.

(** Lines 207-210 and 316-319: a target of the rig for each bone. *)
Definition bone_target (rig : string) (b : Bone) : ArmatureTarget :=
  {| Symmetrize.target := rig; Symmetrize.subtarget := name b;
     Symmetrize.weight := Symmetrize.weight new_target |}.

Definition add_bone_targets (rig : string) (bones : list Bone) (c : Constraint)
    : Constraint :=
  fold_left (fun c b => set_targets (Symmetrize.targets c ++ [bone_target rig b]) c)
    bones c.

Definition plural (n : nat) : string :=
  if Nat.eqb n 1 then EmptyString else "s".

(** Lines 306-321 for one object. *)
Definition parent_object (rig : string) (bones : list Bone) (obj : Object) : Object :=
  let (cs, i) := take_armature_constraint (obj_constraints obj) in
  {| obj_name := obj_name obj;
     obj_constraints := Symmetrize.update_nth i (add_bone_targets rig bones) cs;
     obj_parent := Some rig;
     parent_type := "OBJECT" |}.

(** [POSE_OT_parent_object_to_selected_bones.poll] *)
Definition parent_object_poll (context : Scene) : bool :=
  Nat.ltb 0 (List.length (get_selected_bones (armature context)))
  && Nat.ltb 1 (List.length (selected_objects context)).

(** [POSE_OT_parent_object_to_selected_bones.execute] *)
Definition parent_object_execute : M Scene Symmetrize.OperatorReturn :=
  context <- get ;;
  let rig := rig_name context in
  let is_target := fun o => negb (String.eqb (obj_name o) rig) in
  let target_objs := filter is_target (selected_objects context) in
  match target_objs with
  | [] => ret Symmetrize.CANCELLED
  | _ =>
      let bones := get_selected_bones (armature context) in
      modify (set_selected_objects
                (map (fun o => if is_target o then parent_object rig bones o else o)
                   (selected_objects context))) ;;;
      let objs :=
        if Nat.eqb (List.length target_objs) 1
        then match rev target_objs with o :: _ => obj_name o | [] => EmptyString end
        else str (List.length target_objs) +++ " objects" in
      modify (on_armature
                (report "INFO"
                   ("Parented " +++ objs +++ " to " +++ str (List.length bones)
                    +++ " bone" +++ plural (List.length bones) +++ "."))) ;;;
      ret Symmetrize.FINISHED
  end.

(** [rig.pose.bones[key].constraints] *)
Definition constraints_of (key : string) (l : list (string * list Constraint))
    : option (list Constraint) :=
  option_map snd (find (fun p => String.eqb (fst p) key) l).

Fixpoint set_constraints_of (key : string) (cs : list Constraint)
    (l : list (string * list Constraint)) : list (string * list Constraint) :=
  match l with
  | [] => []
  | p :: l' => if String.eqb (fst p) key then (key, cs) :: l'
               else p :: set_constraints_of key cs l'
  end.

(** [POSE_OT_parent_active_to_all_selected.poll] *)
Definition parent_active_poll (context : Scene) : bool :=
  GenericBoneOperator_poll (armature context)
  && Nat.ltb 1 (List.length (get_selected_bones (armature context)))
  && match get_active_bone context with Some _ => true | None => false end.

(** [POSE_OT_parent_active_to_all_selected.execute] *)
Definition parent_active_execute : M Scene Symmetrize.OperatorReturn :=
  context <- get ;;
  let mode := mode (armature context) in
  (if negb (Mode_eqb mode EDIT) then modify (on_armature (mode_set EDIT)) else ret tt) ;;;
  match active_bone context with
  | None => raise (AttributeError "parent")
  | Some active =>
      modify (on_armature (fun c =>
                set_edit_bones (update_bone active (set_parent None) (edit_bones c)) c)) ;;;
      modify (on_armature (mode_set mode)) ;;;
      context <- get ;;
      match get_active_bone context with
      | None => raise (AttributeError "name")
      | Some active_pb =>
          match constraints_of active_pb (pose_constraints context) with
          | None => raise (KeyError active_pb)
          | Some cs =>
              let (cs, i) := take_armature_constraint cs in
              modify (fun s => set_pose_constraints
                        (set_constraints_of active_pb cs (pose_constraints s)) s) ;;;
              match get_selected_bones_of context true with
              | Raised e => raise e
              | Returned bones =>
                  let cs := Symmetrize.update_nth i
                              (add_bone_targets (rig_name context) bones) cs in
                  modify (fun s => set_pose_constraints
                            (set_constraints_of active_pb cs (pose_constraints s)) s) ;;;
                  let n := match nth_error cs i with
                           | Some arm_con => List.length (Symmetrize.targets arm_con)
                           | None => O
                           end in
                  modify (on_armature
                            (report "INFO"
                               ("Parented " +++ quoted active_pb +++ " to " +++ str n
                                +++ " bone" +++ plural n
                                +++ " using Armature constraint."))) ;;;
                  ret Symmetrize.FINISHED
              end
          end
      end
  end.

End Operators.


(** *** Facts about the Armature constraint that takes the targets *)

Definition no_armature (cs : list Constraint) : Prop :=
  Forall (fun c => is_armature c = false) cs.

Section ParentingFacts.

Variable new_constraint : string -> Constraint.
Variable new_target : ArmatureTarget.

Lemma take_existing (before after : list Constraint) (c : Constraint) :
  no_armature before -> is_armature c = true ->
  take_armature_constraint new_constraint (before ++ c :: after)
  = (before ++ set_targets [] c :: after, List.length before).
Proof.
  intros Hb Hc. induction Hb as [|x before Hx Hb IH]; simpl.
  - now rewrite Hc.
  - now rewrite Hx, IH.
Qed.

Lemma take_new (cs : list Constraint) :
  no_armature cs ->
  take_armature_constraint new_constraint cs
  = (cs ++ [new_constraint "ARMATURE"], List.length cs).
Proof.
  intros H. induction H as [|x cs Hx Hcs IH]; simpl; [reflexivity|].
  now rewrite Hx, IH.
Qed.

Lemma update_nth_middle {A} (f : A -> A) (before after : list A) (x : A) :
  Symmetrize.update_nth (List.length before) f (before ++ x :: after)
  = before ++ f x :: after.
Proof. induction before as [|y before IH]; simpl; [reflexivity | now rewrite IH]. Qed.

Lemma add_bone_targets_eq (rig : string) (bones : list Bone) (c : Constraint) :
  add_bone_targets new_target rig bones c
  = set_targets (Symmetrize.targets c ++ map (bone_target new_target rig) bones) c.
Proof.
  unfold add_bone_targets. revert c. induction bones as [|b bones IH]; intros c; simpl.
  - rewrite app_nil_r. now destruct c.
  - rewrite IH. simpl. unfold set_targets. simpl. now rewrite <- app_assoc.
Qed.

(** The constraints of an object or bone after lines 199-210 (307-319):
    with an Armature constraint, the first one has a target for each bone
    and no other, and the rest is as it was; without one, a new constraint
    stands at the end with these targets after those it came with. *)
Lemma targets_taken (rig : string) (bones : list Bone) (cs : list Constraint) :
  let (l, i) := take_armature_constraint new_constraint cs in
  (forall before c after,
     cs = before ++ c :: after -> no_armature before -> is_armature c = true ->
     Symmetrize.update_nth i (add_bone_targets new_target rig bones) l
     = before ++ set_targets (map (bone_target new_target rig) bones) c :: after)
  /\ (no_armature cs ->
      Symmetrize.update_nth i (add_bone_targets new_target rig bones) l
      = cs ++ [set_targets (Symmetrize.targets (new_constraint "ARMATURE")
                            ++ map (bone_target new_target rig) bones)
                 (new_constraint "ARMATURE")]).
Proof.
  destruct (take_armature_constraint new_constraint cs) as [l i] eqn:T. split.
  - intros before c after -> Hb Hc. rewrite (take_existing _ _ _ Hb Hc) in T.
    injection T as <- <-. rewrite update_nth_middle, add_bone_targets_eq. reflexivity.
  - intros Hn. rewrite (take_new _ Hn) in T. injection T as <- <-.
    rewrite update_nth_middle, add_bone_targets_eq. reflexivity.
Qed.

(** X17: without a selected object other than the rig,
    [POSE_OT_parent_object_to_selected_bones.execute] returns
    [{'CANCELLED'}] and changes nothing. *)
Theorem parent_object_cancels_without_other_object (s : Scene) :
  (forall o, In o (selected_objects s) -> obj_name o = rig_name s) ->
  parent_object_execute new_constraint new_target s = (s, Returned Symmetrize.CANCELLED).
Proof.
  intros H. unfold parent_object_execute, bind, get.
  assert (E : filter (fun o => negb (String.eqb (obj_name o) (rig_name s)))
                (selected_objects s) = []).
  { induction (selected_objects s) as [|o l IH]; [reflexivity|]. simpl.
    rewrite (H o) by now left. rewrite String.eqb_refl. simpl.
    apply IH. intros x Hx. apply H. now right. }
  now rewrite E.
Qed.

(** X18: with a selected object [obj] other than the rig,
    [POSE_OT_parent_object_to_selected_bones.execute] returns
    [{'FINISHED'}]; [obj] is then parented to the rig with parent type
    [OBJECT]; when it had an Armature constraint, the first one has a
    target of the rig for each selected bone, in order, in place of its
    old targets, and its other constraints are as before; when it had
    none, a new constraint with these targets is added at the end.  A
    selected object that is the rig, the bones and the pose constraints
    are not changed. *)
Theorem objects_parented_to_selected_bones (s : Scene) (k : nat) (obj : Object) :
  nth_error (selected_objects s) k = Some obj ->
  obj_name obj <> rig_name s ->
  let s' := fst (parent_object_execute new_constraint new_target s) in
  let selected := get_selected_bones (armature s) in
  snd (parent_object_execute new_constraint new_target s)
  = Returned Symmetrize.FINISHED
  /\ (exists obj',
        nth_error (selected_objects s') k = Some obj'
        /\ obj_name obj' = obj_name obj
        /\ obj_parent obj' = Some (rig_name s)
        /\ parent_type obj' = "OBJECT"
        /\ (forall before c after,
              obj_constraints obj = before ++ c :: after ->
              no_armature before -> is_armature c = true ->
              obj_constraints obj'
              = before
                ++ set_targets (map (bone_target new_target (rig_name s)) selected) c
                :: after)
        /\ (no_armature (obj_constraints obj) ->
            obj_constraints obj'
            = obj_constraints obj
              ++ [set_targets (Symmetrize.targets (new_constraint "ARMATURE")
                               ++ map (bone_target new_target (rig_name s)) selected)
                    (new_constraint "ARMATURE")]))
  /\ (forall j o, nth_error (selected_objects s) j = Some o ->
                  obj_name o = rig_name s ->
                  nth_error (selected_objects s') j = Some o)
  /\ bones (armature s') = bones (armature s)
  /\ edit_bones (armature s') = edit_bones (armature s)
  /\ mode (armature s') = mode (armature s)
  /\ pose_constraints s' = pose_constraints s.
Proof.
  intros Hk Hne. cbv zeta.
  assert (T : negb (String.eqb (obj_name obj) (rig_name s)) = true)
    by (apply negb_true_iff, String.eqb_neq; exact Hne).
  unfold parent_object_execute, bind, get, modify, ret.
  destruct (filter (fun o => negb (String.eqb (obj_name o) (rig_name s)))
              (selected_objects s)) as [|t ts] eqn:F.
  { exfalso. apply nth_error_In in Hk.
    assert (In obj []) by (rewrite <- F; apply filter_In; now split). contradiction. }
  simpl. split; [reflexivity|]. split; [|split].
  - exists (parent_object new_constraint new_target (rig_name s)
              (get_selected_bones (armature s)) obj).
    split; [rewrite nth_error_map, Hk; simpl; now rewrite T|].
    unfold parent_object.
    pose proof (targets_taken (rig_name s) (get_selected_bones (armature s))
                  (obj_constraints obj)) as P.
    destruct (take_armature_constraint new_constraint (obj_constraints obj)) as [l i].
    simpl. destruct P as [P1 P2]. repeat split; assumption.
  - intros j o Hj Ho. rewrite nth_error_map, Hj. simpl.
    now rewrite Ho, String.eqb_refl.
  - repeat split; reflexivity.
Qed.

End ParentingFacts.

(** *** Parenting the active bone to the selected bones *)

Lemma selected_after_unparent (a : string) (l : list Bone) :
  map name (filter select (update_bone a (set_parent None) l))
  = map name (filter select l).
Proof.
  induction l as [|b l IH]; simpl; [reflexivity|].
  destruct (String.eqb (name b) a); simpl.
  - now destruct (select b).
  - destruct (select b); simpl; now rewrite IH.
Qed.

Lemma existsb_names (a : string) (l : list Bone) :
  existsb (fun b => String.eqb (name b) a) l
  = existsb (fun n => String.eqb n a) (map name l).
Proof. induction l as [|b l IH]; simpl; [reflexivity | now rewrite IH]. Qed.

Lemma remove_first_names (a : string) (l : list Bone) :
  map name (Symmetrize.remove_first (fun b => String.eqb (name b) a) l)
  = Symmetrize.remove_first (fun n => String.eqb n a) (map name l).
Proof.
  induction l as [|b l IH]; simpl; [reflexivity|].
  destruct (String.eqb (name b) a); simpl; [reflexivity | now rewrite IH].
Qed.

Lemma constraints_of_set (key : string) (cs cs0 : list Constraint)
    (l : list (string * list Constraint)) :
  constraints_of key l = Some cs0 ->
  constraints_of key (set_constraints_of key cs l) = Some cs.
Proof.
  unfold constraints_of. induction l as [|p l IH]; simpl; [discriminate|].
  destruct (String.eqb (fst p) key) eqn:E; simpl.
  - intros _. now rewrite String.eqb_refl.
  - rewrite E. exact IH.
Qed.

Lemma set_constraints_of_twice (key : string) (cs cs' : list Constraint)
    (l : list (string * list Constraint)) :
  set_constraints_of key cs' (set_constraints_of key cs l) = set_constraints_of key cs' l.
Proof.
  induction l as [|p l IH]; simpl; [reflexivity|].
  destruct (String.eqb (fst p) key) eqn:E; simpl.
  - now rewrite String.eqb_refl.
  - now rewrite E, IH.
Qed.

Section ActiveFacts.

Variable new_constraint : string -> Constraint.
Variable new_target : ArmatureTarget.

(** The armature after lines 186-190, started in pose mode. *)
Definition unparented (a : string) (c : Context) : Context :=
  mode_set POSE
    (set_edit_bones
       (update_bone a (set_parent None) (edit_bones (mode_set EDIT c)))
       (mode_set EDIT c)).

Lemma unparented_bones (a : string) (c : Context) :
  mode c = POSE ->
  mode (unparented a c) = POSE
  /\ bones (unparented a c) = update_bone a (set_parent None) (bones c).
Proof.
  intros Hm. unfold unparented, mode_set. simpl. rewrite Hm. simpl. auto.
Qed.

(** What [execute] does up to the loop of line 207, in pose mode. *)
Lemma parent_active_unfold (s : Scene) (a : string) (cs : list Constraint) :
  mode (armature s) = POSE ->
  active_bone s = Some a ->
  active_pose_bone s = Some a ->
  constraints_of a (pose_constraints s) = Some cs ->
  let s1 := on_armature (unparented a) s in
  let taken := take_armature_constraint new_constraint cs in
  let s2 := set_pose_constraints
              (set_constraints_of a (fst taken) (pose_constraints s)) s1 in
  parent_active_execute new_constraint new_target s
  = match get_selected_bones_of s1 true with
    | Raised e => (s2, Raised e)
    | Returned others =>
        let cs' := Symmetrize.update_nth (snd taken)
                     (add_bone_targets new_target (rig_name s) others) (fst taken) in
        let n := match nth_error cs' (snd taken) with
                 | Some arm_con => List.length (Symmetrize.targets arm_con)
                 | None => O
                 end in
        (on_armature
           (report "INFO"
              ("Parented " +++ quoted a +++ " to " +++ str n +++ " bone" +++ plural n
               +++ " using Armature constraint."))
           (set_pose_constraints (set_constraints_of a cs' (pose_constraints s)) s1),
         Returned Symmetrize.FINISHED)
    end.
Proof.
  intros Hm Ha Hp Hcs. cbv zeta.
  destruct s as [c rn ab ap pc so]. destruct c as [m ux bs ebs calls reps].
  simpl in Hm, Ha, Hp, Hcs. subst m ab ap.
  unfold parent_active_execute, bind, get, modify, ret, raise, get_active_bone,
    unparented, on_armature.
  cbn [armature mode active_bone active_pose_bone pose_constraints rig_name
       selected_objects Mode_eqb negb mode_set set_edit_bones andb edit_bones bones
       use_mirror_x mode_set_calls reports].
  rewrite Hcs.
  destruct (take_armature_constraint new_constraint cs) as [l i].
  cbn [fst snd set_pose_constraints armature mode active_bone active_pose_bone
       pose_constraints rig_name selected_objects].
  match goal with
  | |- context [get_selected_bones_of ?x true] =>
      destruct (get_selected_bones_of x true) as [others|e]
  end.
  - cbn [set_pose_constraints armature mode active_bone active_pose_bone
         pose_constraints rig_name selected_objects].
    rewrite set_constraints_of_twice. reflexivity.
  - reflexivity.
Qed.

Lemma selected_without_active (s : Scene) (a : string) :
  mode (armature s) = POSE ->
  active_pose_bone s = Some a ->
  get_selected_bones_of (on_armature (unparented a) s) true
  = list_remove (Some a)
      (filter select (update_bone a (set_parent None) (bones (armature s)))).
Proof.
  intros Hm Hp. destruct s as [c rn ab ap pc so].
  destruct c as [m ux bs ebs calls reps]. simpl in Hm, Hp. subst m ap. reflexivity.
Qed.

(** X19: in pose mode, when the active bone is not among the selected
    bones, [POSE_OT_parent_active_to_all_selected.execute] raises
    [ValueError] where it takes the active bone out of the selected ones;
    by then the active bone has lost its parent and the first Armature
    constraint of its pose bone, if it had one, has lost its targets. *)
Theorem parent_active_raises_when_active_not_selected (s : Scene) (a : string)
    (cs : list Constraint) :
  mode (armature s) = POSE ->
  active_bone s = Some a ->
  active_pose_bone s = Some a ->
  constraints_of a (pose_constraints s) = Some cs ->
  ~ In a (map name (get_selected_bones (armature s))) ->
  let s' := fst (parent_active_execute new_constraint new_target s) in
  snd (parent_active_execute new_constraint new_target s) = Raised ValueError
  /\ mode (armature s') = POSE
  /\ bones (armature s') = update_bone a (set_parent None) (bones (armature s))
  /\ (forall before c after,
        cs = before ++ c :: after -> no_armature before -> is_armature c = true ->
        constraints_of a (pose_constraints s')
        = Some (before ++ set_targets [] c :: after)).
Proof.
  intros Hm Ha Hp Hcs Hsel. cbv zeta.
  rewrite (parent_active_unfold s a cs Hm Ha Hp Hcs). cbv zeta.
  destruct (unparented_bones a (armature s) Hm) as [M1 M2].
  assert (E : get_selected_bones_of (on_armature (unparented a) s) true
              = Raised ValueError).
  { rewrite (selected_without_active s a Hm Hp). unfold list_remove.
    rewrite existsb_names, selected_after_unparent.
    destruct (existsb (fun n => String.eqb n a)
                (map name (filter select (bones (armature s))))) eqn:X; [|reflexivity].
    exfalso. apply Hsel. apply existsb_exists in X. destruct X as (n & Hn & En).
    apply String.eqb_eq in En. subst n.
    unfold get_selected_bones. now rewrite Hm. }
  rewrite E. simpl. split; [reflexivity|]. split; [exact M1|]. split; [exact M2|].
  intros before c after -> Hb Hc. rewrite (take_existing _ _ _ _ Hb Hc). simpl.
  apply (constraints_of_set a _ _ _ Hcs).
Qed.

(** X20: in pose mode, with the active bone among the selected bones,
    [POSE_OT_parent_active_to_all_selected.execute] returns
    [{'FINISHED'}] in pose mode; the active bone has no parent; the first
    Armature constraint of its pose bone has, in place of its old targets,
    a target of the rig for each selected bone but the active one, in
    order, and the other constraints are as before; without an Armature
    constraint a new one with these targets is added at the end. *)
Theorem active_parented_to_selected (s : Scene) (a : string)
    (cs : list Constraint) :
  mode (armature s) = POSE ->
  active_bone s = Some a ->
  active_pose_bone s = Some a ->
  constraints_of a (pose_constraints s) = Some cs ->
  In a (map name (get_selected_bones (armature s))) ->
  let s' := fst (parent_active_execute new_constraint new_target s) in
  exists others,
    map name others
    = Symmetrize.remove_first (fun n => String.eqb n a)
        (map name (get_selected_bones (armature s)))
    /\ snd (parent_active_execute new_constraint new_target s)
       = Returned Symmetrize.FINISHED
    /\ mode (armature s') = POSE
    /\ bones (armature s') = update_bone a (set_parent None) (bones (armature s))
    /\ (forall before c after,
          cs = before ++ c :: after -> no_armature before -> is_armature c = true ->
          constraints_of a (pose_constraints s')
          = Some (before
                  ++ set_targets (map (bone_target new_target (rig_name s)) others) c
                  :: after))
    /\ (no_armature cs ->
        constraints_of a (pose_constraints s')
        = Some (cs ++ [set_targets
                         (Symmetrize.targets (new_constraint "ARMATURE")
                          ++ map (bone_target new_target (rig_name s)) others)
                         (new_constraint "ARMATURE")])).
Proof.
  intros Hm Ha Hp Hcs Hsel. cbv zeta.
  rewrite (parent_active_unfold s a cs Hm Ha Hp Hcs). cbv zeta.
  destruct (unparented_bones a (armature s) Hm) as [M1 M2].
  set (others := Symmetrize.remove_first (fun b => String.eqb (name b) a)
                   (filter select (update_bone a (set_parent None) (bones (armature s))))).
  assert (E : get_selected_bones_of (on_armature (unparented a) s) true
              = Returned others).
  { rewrite (selected_without_active s a Hm Hp). unfold list_remove.
    rewrite existsb_names, selected_after_unparent.
    assert (X : existsb (fun n => String.eqb n a)
                  (map name (filter select (bones (armature s)))) = true).
    { apply existsb_exists. exists a. split; [|apply String.eqb_refl].
      unfold get_selected_bones in Hsel. now rewrite Hm in Hsel. }
    now rewrite X. }
  rewrite E. exists others. split.
  { unfold others. rewrite remove_first_names, selected_after_unparent.
    unfold get_selected_bones. now rewrite Hm. }
  simpl. split; [reflexivity|]. split; [exact M1|]. split; [exact M2|].
  pose proof (targets_taken new_constraint new_target (rig_name s) others cs) as P.
  destruct (take_armature_constraint new_constraint cs) as [l i]. simpl.
  destruct P as [P1 P2]. split.
  - intros before c after Hcs' Hb Hc. rewrite (P1 before c after Hcs' Hb Hc).
    apply (constraints_of_set a _ _ _ Hcs).
  - intros Hn. rewrite (P2 Hn). apply (constraints_of_set a _ _ _ Hcs).
Qed.

End ActiveFacts.

(** *** Examples *)

Definition example_new_constraint (ctype : string) : Constraint :=
  {| Symmetrize.con_name := "Armature"; Symmetrize.con_type := ctype;
     Symmetrize.action := None; Symmetrize.min_x := 0; Symmetrize.max_x := 0;
     Symmetrize.track_axis := "TRACK_Y"; Symmetrize.targets := [];
     Symmetrize.influence := 1 |}.

Definition example_new_target : ArmatureTarget :=
  {| Symmetrize.target := EmptyString; Symmetrize.subtarget := EmptyString;
     Symmetrize.weight := 1 |}.

Definition old_target : ArmatureTarget :=
  {| Symmetrize.target := "rig"; Symmetrize.subtarget := "spine";
     Symmetrize.weight := 1 |}.

Definition rig_object : Object :=
  {| obj_name := "rig"; obj_constraints := []; obj_parent := None;
     parent_type := "OBJECT" |}.

(** A cube with a Limit Location constraint and an Armature constraint
    that has a target. *)
Definition cube : Object :=
  {| obj_name := "cube";
     obj_constraints := [Symmetrize.limit_location "Limit" 0 1;
                         Symmetrize.armature_constraint "Armature" [old_target]];
     obj_parent := None; parent_type := "BONE" |}.

(** The rig with both arms and the left leg selected; the active bone is
    [active]; the cube and the rig are the selected objects. *)
Definition scene_with_active (active : string) : Scene :=
  {| armature := both_arms_selected;
     rig_name := "rig";
     active_bone := Some active;
     active_pose_bone := Some active;
     pose_constraints :=
       [("root", [Symmetrize.armature_constraint "Armature" [old_target]]);
        ("arm.L", [Symmetrize.limit_location "Limit" 0 1])];
     selected_objects := [rig_object; cube] |}.

Definition only_rig_selected : Scene :=
  set_selected_objects [rig_object] (scene_with_active "arm.L").

Lemma parent_object_cancels_without_other_object_witness :
  parent_object_execute example_new_constraint example_new_target only_rig_selected
  = (only_rig_selected, Returned Symmetrize.CANCELLED).
Proof.
  apply (parent_object_cancels_without_other_object example_new_constraint
           example_new_target only_rig_selected).
  intros o [<- | []]. reflexivity.
Defined.

Lemma objects_parented_to_selected_bones_witness :
  snd (parent_object_execute example_new_constraint example_new_target
         (scene_with_active "arm.L")) = Returned Symmetrize.FINISHED
  /\ exists obj',
       nth_error (selected_objects
                    (fst (parent_object_execute example_new_constraint
                            example_new_target (scene_with_active "arm.L")))) 1
       = Some obj'
       /\ obj_parent obj' = Some "rig".
Proof.
  destruct (objects_parented_to_selected_bones example_new_constraint
              example_new_target (scene_with_active "arm.L") 1 cube)
    as (H1 & (obj' & H2 & _ & H3 & _) & _).
  - reflexivity.
  - vm_compute. discriminate.
  - split; [exact H1|]. exists obj'. split; [exact H2 | exact H3].
Defined.

Example cube_gets_the_selected_bones :
  option_map obj_constraints
    (nth_error (selected_objects
                  (fst (parent_object_execute example_new_constraint
                          example_new_target (scene_with_active "arm.L")))) 1)
  = Some [Symmetrize.limit_location "Limit" 0 1;
          Symmetrize.armature_constraint "Armature"
            [{| Symmetrize.target := "rig"; Symmetrize.subtarget := "arm.L";
                Symmetrize.weight := 1 |};
             {| Symmetrize.target := "rig"; Symmetrize.subtarget := "arm.R";
                Symmetrize.weight := 1 |};
             {| Symmetrize.target := "rig"; Symmetrize.subtarget := "leg.L";
                Symmetrize.weight := 1 |}]].
Proof. vm_compute. reflexivity. Qed.

Lemma parent_active_raises_when_active_not_selected_witness :
  snd (parent_active_execute example_new_constraint example_new_target
         (scene_with_active "root")) = Raised ValueError
  /\ constraints_of "root"
       (pose_constraints
          (fst (parent_active_execute example_new_constraint example_new_target
                  (scene_with_active "root"))))
     = Some [Symmetrize.armature_constraint "Armature" []].
Proof.
  destruct (parent_active_raises_when_active_not_selected example_new_constraint
              example_new_target (scene_with_active "root") "root"
              [Symmetrize.armature_constraint "Armature" [old_target]])
    as (H1 & _ & _ & H4).
  - reflexivity.
  - reflexivity.
  - reflexivity.
  - reflexivity.
  - vm_compute. intuition discriminate.
  - split; [exact H1|].
    apply (H4 [] (Symmetrize.armature_constraint "Armature" [old_target]) []).
    + reflexivity.
    + constructor.
    + reflexivity.
Defined.

Lemma active_parented_to_selected_witness :
  snd (parent_active_execute example_new_constraint example_new_target
         (scene_with_active "arm.L")) = Returned Symmetrize.FINISHED
  /\ mode (armature (fst (parent_active_execute example_new_constraint
                            example_new_target (scene_with_active "arm.L")))) = POSE.
Proof.
  destruct (active_parented_to_selected example_new_constraint example_new_target
              (scene_with_active "arm.L") "arm.L"
              [Symmetrize.limit_location "Limit" 0 1])
    as (others & _ & H1 & H2 & _).
  - reflexivity.
  - reflexivity.
  - reflexivity.
  - reflexivity.
  - simpl. tauto.
  - split; [exact H1 | exact H2].
Defined.

Example active_arm_gets_the_other_bones :
  constraints_of "arm.L"
    (pose_constraints
       (fst (parent_active_execute example_new_constraint example_new_target
               (scene_with_active "arm.L"))))
  = Some [Symmetrize.limit_location "Limit" 0 1;
          Symmetrize.armature_constraint "Armature"
            [{| Symmetrize.target := "rig"; Symmetrize.subtarget := "arm.R";
                Symmetrize.weight := 1 |};
             {| Symmetrize.target := "rig"; Symmetrize.subtarget := "leg.L";
                Symmetrize.weight := 1 |}]].
Proof. vm_compute. reflexivity. Qed.
End ParentingOperators.
